(** * Collaborative editor server: rooms, sessions and document operations

    A shallow embedding of [src/server/index.js]: the operation model
    ([DocumentOperation], [transformOperation], the in-place edit of the
    document-operation handler), the room directory ([createRoom],
    [getRoomInfo]), and the socket handlers as one transition function over
    the two process-wide maps [rooms] and [userSessions].

    Conventions.
    - A JavaScript string is a [string]; one [ascii] stands for one code unit.
    - A JavaScript number used as an offset or a length is an integer [Z];
      negative values are kept, because [String.prototype.slice] gives them a
      meaning (they count from the end).
    - [Date.now()], [new Date()], [uuidv4()] and [Math.random()] are inputs of
      the handler that runs: they are the fields of [env].
    - The socket.io server (version 4) is represented by its room membership
      table; what [join], [leave], [socket.to(r).emit] and [io.to(r).emit] do
      to it and read from it is written out in Module [SocketIO]. *)

From Stdlib Require Import ZArith String Ascii List Lia.
From stdpp Require Import base gmap sets list strings pretty.

Local Open Scope string_scope.
Local Open Scope Z_scope.

(** ** JavaScript strings *)

Module JsString.

(** [s.length] *)
Definition length (s : string) : Z := Z.of_nat (String.length s).

(** The relative index resolution of [String.prototype.slice]:
    a negative index counts from the end, and the result is clamped to
    [0, len]. *)
Definition resolve (len i : Z) : Z :=
  if i <? 0 then Z.max (len + i) 0 else Z.min i len.

(** [s.slice(start, end)]; [end_ = None] is the one-argument call. *)
Definition slice (s : string) (start : Z) (end_ : option Z) : string :=
  let len := length s in
  let from := resolve len start in
  let to := match end_ with None => len | Some e => resolve len e end in
  if to <=? from then EmptyString
  else substring (Z.to_nat from) (Z.to_nat (to - from)) s.

(** The code units of a string, and back. *)
Definition units (s : string) : list ascii := list_ascii_of_string s.
Definition of_units (l : list ascii) : string := string_of_list_ascii l.

End JsString.

(** ** Environment of one handler run *)

Record env := Env {
  now : Z;            (* Date.now() / new Date(), in milliseconds *)
  uuid : string;      (* uuidv4() *)
  rnd1000 : nat;      (* Math.floor(Math.random() * 1000) *)
  rnd360 : nat;       (* Math.floor(Math.random() * 360) *)
  rnd3 : nat          (* Math.floor(Math.random() * mockSuggestions.length) *)
}.

(** ** Document operations *)

Record DocumentOperation := MkOperation {
  op_type : string;        (* 'insert' or 'delete' *)
  op_position : Z;
  op_content : string;
  op_length : Z;
  op_id : string;
  op_timestamp : Z
}.

(** [new DocumentOperation(type, position, content, length = 0)] *)
Definition newDocumentOperation (e : env) (type : string) (position : Z)
    (content : string) (length : option Z) : DocumentOperation :=
  {| op_type := type;
     op_position := position;
     op_content := content;
     op_length := default 0 length;
     op_id := uuid e;
     op_timestamp := now e |}.

(** [transformOperation(op1, op2)] *)
Definition transformOperation (e : env) (op1 op2 : DocumentOperation)
    : DocumentOperation :=
  if op_position op1 <=? op_position op2 then
    if String.eqb (op_type op1) "insert" then
      newDocumentOperation e (op_type op2)
        (op_position op2 + JsString.length (op_content op1))
        (op_content op2) (Some (op_length op2))
    else if String.eqb (op_type op1) "delete" then
      newDocumentOperation e (op_type op2)
        (Z.max (op_position op2 - op_length op1) (op_position op1))
        (op_content op2) (Some (op_length op2))
    else op2
  else op2.

(** The edit of the document-operation handler (lines 169-177). *)
Definition applyOperation (operation : DocumentOperation) (content : string)
    : string :=
  if String.eqb (op_type operation) "insert" then
    let before := JsString.slice content 0 (Some (op_position operation)) in
    let after := JsString.slice content (op_position operation) None in
    before +:+ op_content operation +:+ after
  else if String.eqb (op_type operation) "delete" then
    let before := JsString.slice content 0 (Some (op_position operation)) in
    let after :=
      JsString.slice content (op_position operation + op_length operation) None in
    before +:+ after
  else content.

(** The edit as the specification words it, on the sequence of code
    units and with offsets that are natural numbers: an insert splits the
    content at the position clamped to the length and joins the halves around
    the text; a delete removes the window [position, position + length)
    clamped to [0, length content]. *)
Module Spec.

Definition clamp (len i : nat) : nat := Nat.min i len.

Definition insert (content : string) (position : nat) (text : string) : string :=
  let u := JsString.units content in
  let p := clamp (List.length u) position in
  JsString.of_units (take p u ++ JsString.units text ++ drop p u).

Definition delete (content : string) (position length : nat) : string :=
  let u := JsString.units content in
  let lo := clamp (List.length u) position in
  let hi := clamp (List.length u) (position + length) in
  JsString.of_units (take lo u ++ drop hi u).

End Spec.


(** ** Rooms, users, sessions *)

Record cursor := Cursor { line : Z; column : Z }.

Record user := User {
  user_id : string;
  user_name : string;
  user_color : string;
  user_cursor : cursor;
  user_joinedAt : Z
}.

Record document := Document {
  doc_content : string;
  doc_language : string
}.

Record chat_message := ChatMsg {
  msg_id : string;
  msg_userId : string;
  msg_userName : string;
  msg_userColor : string;
  msg_content : string;
  msg_timestamp : Z
}.

(** A room object. [room_users] is the [Map] from socket id to user; the
    order of its entries is not observed by any handler but [getRoomInfo],
    whose list is therefore in the map's own order. *)
Record room := Room {
  room_id : string;
  room_name : string;
  room_document : document;
  room_users : gmap string user;
  room_operations : list DocumentOperation;
  room_chat : list chat_message;
  room_createdAt : Z;
  room_lastActivity : Z
}.

(** An entry of [userSessions]. The [user] object of the session is the
    object stored in the room's [users] map: a write through either is a
    write to both, which the handlers below spell out. *)
Record session := Session {
  sess_roomId : string;
  sess_user : user
}.

(** The welcome text of a new room. *)
Definition nl : string := String (ascii_of_nat 10) EmptyString.
Definition welcome : string :=
  "// Welcome to the collaborative code editor!" +:+ nl +:+
  "// Start typing to begin..." +:+ nl.
Definition default_language : string := "javascript".

(** The grace period of the cleanup timer, in milliseconds. *)
Definition grace : Z := 3600000.

(** ** The socket.io server *)

Module SocketIO.

(** The adapter's table: room name to the ids of the sockets joined. *)
Abbreviation table := (gmap string (gset string)).

Definition members (t : table) (r : string) : gset string :=
  default ∅ (t !! r).

(** [socket.join(r)] *)
Definition join (sid r : string) (t : table) : table :=
  <[r := {[sid]} ∪ members t r]> t.

(** [socket.leave(r)] *)
Definition leave (sid r : string) (t : table) : table :=
  <[r := members t r ∖ {[sid]}]> t.

(** A closing socket leaves every room before its 'disconnect' listeners
    run. *)
Definition leaveAll (sid : string) (t : table) : table :=
  (λ s, s ∖ {[sid]}) <$> t.

(** A new socket joins the room named by its own id. *)
Definition connect (sid : string) (t : table) : table := join sid sid t.

(** Receivers of [socket.to(r).emit(..)]. The broadcast operator of a socket
    is built with the room named by the socket's id as its excepted room:
    the receivers are the sockets joined to [r] that are not joined to the
    room named [sid]. The sender is among the excepted as long as it is in
    the room of its own id. *)
Definition socket_to (t : table) (sid r : string) : gset string :=
  members t r ∖ members t sid.

(** Receivers of [io.to(r).emit(..)]: every socket joined to [r]. *)
Definition io_to (t : table) (r : string) : gset string := members t r.

End SocketIO.

(** ** Messages sent to clients *)

Record user_info := UserInfo {
  ui_id : string;
  ui_name : string;
  ui_color : string;
  ui_cursor : cursor
}.

Record room_info := RoomInfo {
  info_id : string;
  info_name : string;
  info_userCount : nat;
  info_users : list user_info;
  info_document : document;
  info_lastActivity : Z
}.

Inductive payload :=
| RoomJoined (info : option room_info)
| UserJoined (u : user)
| UserLeft (u : user)
| DocumentOperationMsg (op : DocumentOperation) (userId userName : string)
| CursorPositionMsg (userId userName color : string) (c : cursor)
| LanguageChangeMsg (language : string)
| ChatMessageMsg (m : chat_message)
| AiSuggestion (suggestion : string) (position : cursor) (context : string).

(** One [emit]: who receives it and what. *)
Record emission := Emit {
  receivers : gset string;
  body : payload
}.

(** ** Server state *)

Record server := Server {
  rooms : gmap string room;
  userSessions : gmap string session;
  sio : gmap string (gset string);
  timers : list (Z * string)     (* pending cleanups: due time, room id *)
}.

Definition init : server :=
  {| rooms := ∅; userSessions := ∅; sio := ∅; timers := [] |}.

Definition set_rooms (f : gmap string room → gmap string room) (st : server) : server :=
  {| rooms := f (rooms st); userSessions := userSessions st;
     sio := sio st; timers := timers st |}.
Definition set_userSessions (f : gmap string session → gmap string session)
    (st : server) : server :=
  {| rooms := rooms st; userSessions := f (userSessions st);
     sio := sio st; timers := timers st |}.
Definition set_sio (f : gmap string (gset string) → gmap string (gset string))
    (st : server) : server :=
  {| rooms := rooms st; userSessions := userSessions st;
     sio := f (sio st); timers := timers st |}.
Definition set_timers (f : list (Z * string) → list (Z * string)) (st : server) : server :=
  {| rooms := rooms st; userSessions := userSessions st;
     sio := sio st; timers := f (timers st) |}.

Definition with_users (f : gmap string user → gmap string user) (r : room) : room :=
  {| room_id := room_id r; room_name := room_name r;
     room_document := room_document r; room_users := f (room_users r);
     room_operations := room_operations r; room_chat := room_chat r;
     room_createdAt := room_createdAt r; room_lastActivity := room_lastActivity r |}.
Definition with_lastActivity (t : Z) (r : room) : room :=
  {| room_id := room_id r; room_name := room_name r;
     room_document := room_document r; room_users := room_users r;
     room_operations := room_operations r; room_chat := room_chat r;
     room_createdAt := room_createdAt r; room_lastActivity := t |}.
Definition with_document (d : document) (r : room) : room :=
  {| room_id := room_id r; room_name := room_name r;
     room_document := d; room_users := room_users r;
     room_operations := room_operations r; room_chat := room_chat r;
     room_createdAt := room_createdAt r; room_lastActivity := room_lastActivity r |}.
Definition with_operations (f : list DocumentOperation → list DocumentOperation)
    (r : room) : room :=
  {| room_id := room_id r; room_name := room_name r;
     room_document := room_document r; room_users := room_users r;
     room_operations := f (room_operations r); room_chat := room_chat r;
     room_createdAt := room_createdAt r; room_lastActivity := room_lastActivity r |}.
Definition with_chat (f : list chat_message → list chat_message) (r : room) : room :=
  {| room_id := room_id r; room_name := room_name r;
     room_document := room_document r; room_users := room_users r;
     room_operations := room_operations r; room_chat := f (room_chat r);
     room_createdAt := room_createdAt r; room_lastActivity := room_lastActivity r |}.
Definition with_cursor (c : cursor) (u : user) : user :=
  {| user_id := user_id u; user_name := user_name u; user_color := user_color u;
     user_cursor := c; user_joinedAt := user_joinedAt u |}.

(** ** Room directory *)

(** [createRoom(roomId, name)]: builds the room, stores it under [roomId]
    (overwriting whatever was there) and returns it. *)
Definition createRoom (e : env) (roomId name : string) (st : server) : server * room :=
  let room :=
    {| room_id := roomId;
       room_name := name;
       room_document := {| doc_content := welcome; doc_language := default_language |};
       room_users := ∅;
       room_operations := [];
       room_chat := [];
       room_createdAt := now e;
       room_lastActivity := now e |} in
  (set_rooms (insert roomId room) st, room).

(** [getRoomInfo(roomId)] *)
Definition getRoomInfo (roomId : string) (st : server) : option room_info :=
  match rooms st !! roomId with
  | None => None
  | Some room =>
      Some {| info_id := room_id room;
              info_name := room_name room;
              info_userCount := size (room_users room);
              info_users :=
                (λ kv, {| ui_id := user_id kv.2; ui_name := user_name kv.2;
                          ui_color := user_color kv.2;
                          ui_cursor := user_cursor kv.2 |})
                  <$> map_to_list (room_users room);
              info_document := room_document room;
              info_lastActivity := room_lastActivity room |}
  end.

(** ** Socket handlers *)

Inductive event :=
| Connection
| JoinRoom (roomId : string) (userName : option string)
| DocumentOperationEv (type : string) (position : Z) (content : string)
    (length : option Z)
| CursorPositionEv (c : cursor)
| LanguageChangeEv (language : string)
| ChatMessageEv (message : string)
| AiAssistanceEv (position : cursor) (context : string)
| Disconnect.

(** What the event loop can run next: a listener of some socket, or the
    callback of the [i]-th pending cleanup timer. *)
Inductive input :=
| FromSocket (sid : string) (ev : event)
| TimerFire (i : nat).

(** [userName || `User ${Math.floor(Math.random() * 1000)}`] *)
Definition display_name (e : env) (userName : option string) : string :=
  match userName with
  | Some n => if String.eqb n EmptyString then "User " +:+ pretty (rnd1000 e) else n
  | None => "User " +:+ pretty (rnd1000 e)
  end.

(** [`hsl(${Math.floor(Math.random() * 360)}, 70%, 60%)`] *)
Definition display_color (e : env) : string :=
  "hsl(" +:+ pretty (rnd360 e) +:+ ", 70%, 60%)".

(** The first block of the join-room listener: leave the previous room. *)
Definition leave_previous (sid : string) (st : server) : server * list emission :=
  match userSessions st !! sid with
  | Some prevSession =>
      let st1 := set_sio (SocketIO.leave sid (sess_roomId prevSession)) st in
      match rooms st1 !! sess_roomId prevSession with
      | Some proom =>
          let st2 :=
            set_rooms (insert (sess_roomId prevSession)
                         (with_users (delete sid) proom)) st1 in
          (st2, [Emit (SocketIO.socket_to (sio st2) sid (sess_roomId prevSession))
                   (UserLeft (sess_user prevSession))])
      | None => (st1, [])
      end
  | None => (st, [])
  end.

Definition on_join_room (e : env) (sid roomId : string) (userName : option string)
    (st : server) : server * list emission :=
  let '(st1, out1) := leave_previous sid st in
  (* Create room if it doesn't exist *)
  let '(st2, room) :=
    match rooms st1 !! roomId with
    | Some room => (st1, room)
    | None => createRoom e roomId ("Room " +:+ JsString.slice roomId 0 (Some 8)) st1
    end in
  let user :=
    {| user_id := sid;
       user_name := display_name e userName;
       user_color := display_color e;
       user_cursor := {| line := 0; column := 0 |};
       user_joinedAt := now e |} in
  let room' := with_lastActivity (now e) (with_users (insert sid user) room) in
  let st3 := set_rooms (insert roomId room') st2 in
  let st4 :=
    set_userSessions (insert sid {| sess_roomId := roomId; sess_user := user |}) st3 in
  let st5 := set_sio (SocketIO.join sid roomId) st4 in
  (st5, (out1 ++ [Emit {[sid]} (RoomJoined (getRoomInfo roomId st5));
                  Emit (SocketIO.socket_to (sio st5) sid roomId) (UserJoined user)])%list).

Definition on_document_operation (e : env) (sid type : string) (position : Z)
    (content : string) (length : option Z) (st : server) : server * list emission :=
  match userSessions st !! sid with
  | None => (st, [])
  | Some session =>
      let roomId := sess_roomId session in
      match rooms st !! roomId with
      | None => (st, [])
      | Some room =>
          let operation := newDocumentOperation e type position content length in
          let doc :=
            {| doc_content := applyOperation operation (doc_content (room_document room));
               doc_language := doc_language (room_document room) |} in
          let room' :=
            with_lastActivity (now e)
              (with_operations (λ l, (l ++ [operation])%list) (with_document doc room)) in
          (set_rooms (insert roomId room') st,
           [Emit (SocketIO.socket_to (sio st) sid roomId)
              (DocumentOperationMsg operation sid (user_name (sess_user session)))])
      end
  end.

Definition on_cursor_position (sid : string) (c : cursor) (st : server)
    : server * list emission :=
  match userSessions st !! sid with
  | None => (st, [])
  | Some session =>
      let roomId := sess_roomId session in
      match rooms st !! roomId with
      | None => (st, [])
      | Some room =>
          (* user.cursor = data.cursor: the session's user object is written *)
          let user := with_cursor c (sess_user session) in
          let st1 :=
            set_userSessions
              (insert sid {| sess_roomId := roomId; sess_user := user |}) st in
          let st2 := set_rooms (insert roomId (with_users (insert sid user) room)) st1 in
          (st2,
           [Emit (SocketIO.socket_to (sio st2) sid roomId)
              (CursorPositionMsg sid (user_name user) (user_color user) c)])
      end
  end.

Definition on_language_change (e : env) (sid language : string) (st : server)
    : server * list emission :=
  match userSessions st !! sid with
  | None => (st, [])
  | Some session =>
      let roomId := sess_roomId session in
      match rooms st !! roomId with
      | None => (st, [])
      | Some room =>
          let doc :=
            {| doc_content := doc_content (room_document room);
               doc_language := language |} in
          let room' := with_lastActivity (now e) (with_document doc room) in
          (set_rooms (insert roomId room') st,
           [Emit (SocketIO.io_to (sio st) roomId) (LanguageChangeMsg language)])
      end
  end.

Definition on_chat_message (e : env) (sid message : string) (st : server)
    : server * list emission :=
  match userSessions st !! sid with
  | None => (st, [])
  | Some session =>
      let roomId := sess_roomId session in
      let user := sess_user session in
      match rooms st !! roomId with
      | None => (st, [])
      | Some room =>
          let m :=
            {| msg_id := uuid e; msg_userId := sid;
               msg_userName := user_name user; msg_userColor := user_color user;
               msg_content := message; msg_timestamp := now e |} in
          let room' :=
            with_lastActivity (now e) (with_chat (λ l, (l ++ [m])%list) room) in
          (set_rooms (insert roomId room') st,
           [Emit (SocketIO.io_to (sio st) roomId) (ChatMessageMsg m)])
      end
  end.

Definition dquote : string := String (ascii_of_nat 34) EmptyString.

Definition mockSuggestions : list string :=
  [ "console.log(" +:+ dquote +:+ "Hello, world!" +:+ dquote +:+ ");";
    "function fibonacci(n) {" +:+ nl +:+
    "  if (n <= 1) return n;" +:+ nl +:+
    "  return fibonacci(n-1) + fibonacci(n-2);" +:+ nl +:+ "}";
    "// TODO: Implement this function" ].

Definition on_ai_assistance (e : env) (sid : string) (position : cursor)
    (context : string) (st : server) : server * list emission :=
  match userSessions st !! sid with
  | None => (st, [])
  | Some _ =>
      let suggestion := default EmptyString (mockSuggestions !! rnd3 e) in
      (st, [Emit {[sid]} (AiSuggestion suggestion position context)])
  end.

(** The callback given to [setTimeout] by the disconnect listener. *)
Definition cleanup (roomId : string) (st : server) : server :=
  match rooms st !! roomId with
  | Some room =>
      if decide (size (room_users room) = 0%nat)
      then set_rooms (delete roomId) st
      else st
  | None => st
  end.

(** The disconnect listener. The socket has left all its socket.io rooms
    when it runs. *)
Definition on_disconnect (e : env) (sid : string) (st : server)
    : server * list emission :=
  let st0 := set_sio (SocketIO.leaveAll sid) st in
  match userSessions st0 !! sid with
  | None => (st0, [])
  | Some session =>
      let roomId := sess_roomId session in
      let '(st3, out) :=
        match rooms st0 !! roomId with
        | None => (st0, [])
        | Some room =>
            let room' := with_lastActivity (now e) (with_users (delete sid) room) in
            let st1 := set_rooms (insert roomId room') st0 in
            let out :=
              [Emit (SocketIO.socket_to (sio st1) sid roomId)
                 (UserLeft (sess_user session))] in
            (* Clean up empty rooms after 1 hour *)
            let st2 :=
              if decide (size (room_users room') = 0%nat)
              then set_timers (λ l, (l ++ [(now e + grace, roomId)])%list) st1
              else st1 in
            (st2, out)
        end in
      (set_userSessions (delete sid) st3, out)
  end.

(** A pending timer fires no earlier than its due time; firing removes it
    from the pending list and runs its callback. *)
Definition on_timer (e : env) (i : nat) (st : server) : server :=
  match timers st !! i with
  | Some (due, roomId) =>
      if due <=? now e
      then cleanup roomId (set_timers (delete i) st)
      else st
  | None => st
  end.

Definition step (e : env) (inp : input) (st : server) : server * list emission :=
  match inp with
  | FromSocket sid Connection => (set_sio (SocketIO.connect sid) st, [])
  | FromSocket sid (JoinRoom roomId userName) => on_join_room e sid roomId userName st
  | FromSocket sid (DocumentOperationEv type position content length) =>
      on_document_operation e sid type position content length st
  | FromSocket sid (CursorPositionEv c) => on_cursor_position sid c st
  | FromSocket sid (LanguageChangeEv language) => on_language_change e sid language st
  | FromSocket sid (ChatMessageEv message) => on_chat_message e sid message st
  | FromSocket sid (AiAssistanceEv position context) =>
      on_ai_assistance e sid position context st
  | FromSocket sid Disconnect => on_disconnect e sid st
  | TimerFire i => (on_timer e i st, [])
  end.

(** Running a trace of inputs, each with the environment it runs in. *)
Fixpoint run (tr : list (env * input)) (st : server) : server :=
  match tr with
  | [] => st
  | (e, inp) :: tr' => run tr' (step e inp st).1
  end.

Definition reachable (st : server) : Prop := ∃ tr, run tr init = st.

(** ** Notions the statements are written with *)

(** [b'] is [b] with at most its position changed. *)
Definition only_position_changed (b b' : DocumentOperation) : Prop :=
  op_type b' = op_type b ∧ op_content b' = op_content b ∧
  op_length b' = op_length b ∧ op_id b' = op_id b ∧
  op_timestamp b' = op_timestamp b.

(** The three facts that hold of every reachable state: a session names a
    room of the directory that holds the session's own user object under the
    connection id; a user stored in a room has a session naming that room;
    a user stored in a room is joined to the socket.io room of that name. *)
Record consistent (st : server) : Prop := Consistent {
  session_in_room : ∀ sid s,
    userSessions st !! sid = Some s →
    ∃ r, rooms st !! sess_roomId s = Some r ∧ room_users r !! sid = Some (sess_user s);
  user_has_session : ∀ rid r sid u,
    rooms st !! rid = Some r → room_users r !! sid = Some u →
    ∃ s, userSessions st !! sid = Some s ∧ sess_roomId s = rid;
  user_is_joined : ∀ rid r sid u,
    rooms st !! rid = Some r → room_users r !! sid = Some u →
    sid ∈ SocketIO.members (sio st) rid
}.

(** The same with connection [sid] taken out of every room: the state in the
    middle of a join, after the previous room was left. *)
Record consistent_but (sid : string) (st : server) : Prop := ConsistentBut {
  other_session_in_room : ∀ sid' s,
    sid' ≠ sid → userSessions st !! sid' = Some s →
    ∃ r, rooms st !! sess_roomId s = Some r ∧ room_users r !! sid' = Some (sess_user s);
  other_user_has_session : ∀ rid r sid' u,
    rooms st !! rid = Some r → room_users r !! sid' = Some u →
    sid' ≠ sid ∧ ∃ s, userSessions st !! sid' = Some s ∧ sess_roomId s = rid;
  other_user_is_joined : ∀ rid r sid' u,
    rooms st !! rid = Some r → room_users r !! sid' = Some u →
    sid' ∈ SocketIO.members (sio st) rid
}.

(** The user object a join constructs. *)
Definition joined_user (e : env) (sid : string) (userName : option string) : user :=
  {| user_id := sid;
     user_name := display_name e userName;
     user_color := display_color e;
     user_cursor := {| line := 0; column := 0 |};
     user_joinedAt := now e |}.

(** The room object a lazy creation stores. *)
Definition fresh_room (e : env) (roomId : string) : room :=
  (createRoom e roomId ("Room " +:+ JsString.slice roomId 0 (Some 8)) init).2.

(** A few environments and traces used to run the handlers on. *)
Definition at_time (t : Z) : env :=
  {| now := t; uuid := "uuid"; rnd1000 := 7; rnd360 := 200; rnd3 := 0 |}.

Definition alice_and_bob : list (env * input) :=
  [ (at_time 0, FromSocket "a" Connection);
    (at_time 10, FromSocket "a" (JoinRoom "r1" (Some "Alice")));
    (at_time 20, FromSocket "b" Connection);
    (at_time 30, FromSocket "b" (JoinRoom "r1" (Some "Bob"))) ].

Definition room_message (ev : event) : bool :=
  match ev with
  | DocumentOperationEv _ _ _ _ | CursorPositionEv _
  | LanguageChangeEv _ | ChatMessageEv _ => true
  | _ => false
  end.

(** [R] holds every member of room [rid] of [st] other than [sid]. *)
Definition others_reached (st : server) (rid sid : string) (R : gset string) : Prop :=
  ∀ r m, rooms st !! rid = Some r → is_Some (room_users r !! m) → m ≠ sid → m ∈ R.

(** Connection [sid] is joined to the socket.io room named by its own id, as
    every socket is from its connection until it leaves that room. *)
Definition in_own_room (st : server) (sid : string) : Prop :=
  sid ∈ SocketIO.members (sio st) sid.

(** What every served state keeps of the socket.io rooms: a user stored in a
    room has a session naming the room and is joined to the socket.io room of
    that name; a connection with a session is joined to the socket.io room
    its session names; a connection is joined to no socket.io room but the
    one of its own id and the one its session names. *)
Record attached (st : server) : Prop := Attached {
  att_user_session : ∀ rid r m u,
    rooms st !! rid = Some r → room_users r !! m = Some u →
    ∃ s, userSessions st !! m = Some s ∧ sess_roomId s = rid;
  att_user_joined : ∀ rid r m u,
    rooms st !! rid = Some r → room_users r !! m = Some u →
    m ∈ SocketIO.members (sio st) rid;
  att_session_joined : ∀ m s,
    userSessions st !! m = Some s → m ∈ SocketIO.members (sio st) (sess_roomId s);
  att_joined : ∀ m x,
    m ∈ SocketIO.members (sio st) x →
    m = x ∨ ∃ s, userSessions st !! m = Some s ∧ sess_roomId s = x
}.

(** The same in the middle of a join by [sid], after its previous room was
    left: [sid] is in no user map and in no socket.io room but its own. *)
Record attached_but (sid : string) (st : server) : Prop := AttachedBut {
  attb_user_session : ∀ rid r m u,
    rooms st !! rid = Some r → room_users r !! m = Some u →
    m ≠ sid ∧ ∃ s, userSessions st !! m = Some s ∧ sess_roomId s = rid;
  attb_user_joined : ∀ rid r m u,
    rooms st !! rid = Some r → room_users r !! m = Some u →
    m ∈ SocketIO.members (sio st) rid;
  attb_session_joined : ∀ m s,
    m ≠ sid → userSessions st !! m = Some s →
    m ∈ SocketIO.members (sio st) (sess_roomId s);
  attb_joined : ∀ m x,
    m ∈ SocketIO.members (sio st) x →
    m = x ∨ (m ≠ sid ∧ ∃ s, userSessions st !! m = Some s ∧ sess_roomId s = x)
}.

(** A delete as the specification words it for every integer position and
    length: the window [position, position + length) clamped to
    [0, length content] is removed. *)
Definition clamped_delete (content : string) (position length : Z) : string :=
  let u := JsString.units content in
  let clamp i := Z.to_nat (Z.max 0 (Z.min i (Z.of_nat (List.length u)))) in
  JsString.of_units (take (clamp position) u ++ drop (clamp (position + length)) u).




(** A leaves room r at time 1000 (cleanup due at 3601000); B joins r at 2000
    and leaves it at 3000; the first timer fires at 3601000. *)
Definition rejoin_then_leave : list (env * input) :=
  [ (at_time 0, FromSocket "a" (JoinRoom "r" (Some "Alice")));
    (at_time 1000, FromSocket "a" Disconnect);
    (at_time 2000, FromSocket "b" (JoinRoom "r" (Some "Bob")));
    (at_time 3000, FromSocket "b" Disconnect) ].

(** A is alone in room r1 and joins r2. *)
Definition alone_then_switch : list (env * input) :=
  [ (at_time 0, FromSocket "a" (JoinRoom "r1" (Some "Alice")));
    (at_time 1000, FromSocket "a" (JoinRoom "r2" (Some "Alice"))) ].

(** A is alone in room r1 and disconnects. *)
Definition alone_then_disconnect : list (env * input) :=
  [ (at_time 0, FromSocket "a" (JoinRoom "r1" (Some "Alice")));
    (at_time 1000, FromSocket "a" Disconnect) ].

(** A joins r1 at time 0. *)
Definition alice_alone : list (env * input) :=
  [ (at_time 0, FromSocket "a" (JoinRoom "r1" (Some "Alice"))) ].

(** The colour a join stores for the connection. *)
Definition color_after_join (e : env) (sid roomId : string) (userName : option string)
    (st : server) : option string :=
  user_color ∘ sess_user <$>
    userSessions (step e (FromSocket sid (JoinRoom roomId userName)) st).1 !! sid.

(** A document-operation message as it arrives: the environment of its
    listener run, the sending connection, and type, position, content and
    length. *)
Definition arrival : Type := env * string * (string * Z * string * option Z).

Definition arrival_input (x : arrival) : env * input :=
  let '(e, sid, (type, position, content, length)) := x in
  (e, FromSocket sid (DocumentOperationEv type position content length)).

(** The edit one arrival makes to a content. *)
Definition arrival_edit (c : string) (x : arrival) : string :=
  let '(e, _, (type, position, content, length)) := x in
  applyOperation (newDocumentOperation e type position content length) c.

Definition arrival_sender (x : arrival) : string := x.1.2.

(** The scenario of the specification: A and B join r1, A inserts X at 0,
    B deletes one unit at 0. *)
Definition scenario_insert : list (env * input) :=
  [ (at_time 0, FromSocket "a" (JoinRoom "r1" (Some "Alice")));
    (at_time 1, FromSocket "b" (JoinRoom "r1" (Some "Bob")));
    (at_time 2, FromSocket "a" (DocumentOperationEv "insert" 0 "X" None)) ].

Definition scenario_delete : list (env * input) :=
  (scenario_insert ++
   [ (at_time 3, FromSocket "b" (DocumentOperationEv "delete" 0 EmptyString (Some 1))) ])%list.

(** ** The HTTP endpoints *)

(** One entry of the answer of [GET /api/rooms]. *)
Record room_summary := RoomSummary {
  sum_id : string;
  sum_name : string;
  sum_userCount : nat;
  sum_lastActivity : Z
}.

Definition summary (r : room) : room_summary :=
  {| sum_id := room_id r; sum_name := room_name r;
     sum_userCount := size (room_users r);
     sum_lastActivity := room_lastActivity r |}.

(** [GET /api/rooms]: [Array.from(rooms.values()).map(..)], in the map's own
    order. *)
Definition listRooms (st : server) : list room_summary :=
  (λ kv, summary kv.2) <$> map_to_list (rooms st).

(** [POST /api/rooms] with body [{ name }]: the new state and the answer
    [{ roomId, name }]. *)
Definition postRoom (e : env) (name : option string) (st : server)
    : server * (string * string) :=
  let roomId := uuid e in
  let fallback := "Room " +:+ JsString.slice roomId 0 (Some 8) in
  let name' :=
    match name with
    | Some n => if String.eqb n EmptyString then fallback else n
    | None => fallback
    end in
  let '(st', room) := createRoom e roomId name' st in
  (st', (room_id room, room_name room)).

(** What the process can serve next: an input of the event loop or one of
    the two HTTP requests. *)
Inductive request :=
| Loop (inp : input)
| PostRooms (name : option string)
| GetRooms.

Definition serve (e : env) (rq : request) (st : server) : server :=
  match rq with
  | Loop inp => (step e inp st).1
  | PostRooms name => (postRoom e name st).1
  | GetRooms => st
  end.

Fixpoint serve_all (tr : list (env * request)) (st : server) : server :=
  match tr with
  | [] => st
  | (e, rq) :: tr' => serve_all tr' (serve e rq st)
  end.

Definition served (st : server) : Prop := ∃ tr, serve_all tr init = st.

(** The content obtained by applying a log of operations, oldest first, to
    the welcome text. *)
Definition replay (ops : list DocumentOperation) : string :=
  fold_left (λ c op, applyOperation op c) ops welcome.

(** What every state the process can be in keeps: a room is stored under its
    own id, a user under its own id, a session holds a user with the
    connection's id, and a room's content is the replay of its log. *)
Record well_kept (st : server) : Prop := WellKept {
  room_under_id : ∀ rid r, rooms st !! rid = Some r → room_id r = rid;
  user_under_id : ∀ rid r sid u,
    rooms st !! rid = Some r → room_users r !! sid = Some u → user_id u = sid;
  session_user_id : ∀ sid s, userSessions st !! sid = Some s → user_id (sess_user s) = sid;
  content_replays_log : ∀ rid r,
    rooms st !! rid = Some r →
    doc_content (room_document r) = replay (room_operations r)
}.

(** The number of sessions that name room [rid]. *)
Definition sessions_naming (rid : string) (st : server) : nat :=
  size (filter (λ kv, sess_roomId kv.2 = rid) (userSessions st)).

(** A is an insert at or before B's position, or a delete whose window ends
    at or before B's position. *)
Definition precedes (A B : DocumentOperation) : Prop :=
  (op_type A = "insert" ∧ op_position A ≤ op_position B)
  ∨ (op_type A = "delete" ∧ op_position A + op_length A ≤ op_position B).

Definition edit_type (op : DocumentOperation) : Prop :=
  op_type op = "insert" ∨ op_type op = "delete".

(** ** The client *)

Module Client.

(** [formatJoinTime] of the user list and [formatLastActivity] of the room
    selector: the same function up to the label of the first case.
    [toLocaleDateString] is the host's date formatting. *)
Definition format_age (fresh : string) (toLocaleDateString : Z → string)
    (now date : Z) : string :=
  let diffInMinutes := (now - date) `div` 60000 in
  if diffInMinutes <? 1 then fresh
  else if diffInMinutes <? 60 then pretty diffInMinutes +:+ "m ago"
  else
    let diffInHours := diffInMinutes `div` 60 in
    if diffInHours <? 24 then pretty diffInHours +:+ "h ago"
    else toLocaleDateString date.

Definition formatJoinTime := format_age "Just joined".
Definition formatLastActivity := format_age "Active now".

(** The payload of a cursor-position message, as the client keeps it. *)
Record CursorPosition := MkCursorPosition {
  cp_userId : string;
  cp_userName : string;
  cp_color : string;
  cp_cursor : cursor
}.

(** The state updates of the socket listeners of [App]. *)
Definition onUserJoined (u : user) (prev : list user) : list user :=
  (prev ++ [u])%list.

Definition onUserLeft_users (u : user) (prev : list user) : list user :=
  filter (λ x, user_id x ≠ user_id u) prev.

Definition onUserLeft_cursors (u : user) (prev : list CursorPosition)
    : list CursorPosition :=
  filter (λ c, cp_userId c ≠ user_id u) prev.

Definition onCursorPosition (position : CursorPosition) (prev : list CursorPosition)
    : list CursorPosition :=
  let filtered := filter (λ c, cp_userId c ≠ cp_userId position) prev in
  (filtered ++ [position])%list.

(** The events that change the list of remote cursors. *)
Inductive cursor_event :=
| Moved (position : CursorPosition)
| Left (u : user).

Definition cursor_step (prev : list CursorPosition) (ev : cursor_event)
    : list CursorPosition :=
  match ev with
  | Moved position => onCursorPosition position prev
  | Left u => onUserLeft_cursors u prev
  end.

(** A content change of the editor: the offset where the replaced range
    starts, the length of the replaced range, the text put in its place. *)
Record change := Change {
  ch_start : nat;
  ch_rangeLength : nat;
  ch_text : string
}.

(** The editor's content after the change: the range replaced by the text. *)
Definition editor_after (ch : change) (content : string) : string :=
  let u := JsString.units content in
  JsString.of_units
    (take (ch_start ch) u ++ JsString.units (ch_text ch)
       ++ drop (ch_start ch + ch_rangeLength ch) u).

(** The operation the editor sends for a change (content-change listener of
    the code editor): type [change.text ? 'insert' : 'delete']. *)
Definition operation_of_change (e : env) (ch : change) : DocumentOperation :=
  newDocumentOperation e
    (if String.eqb (ch_text ch) EmptyString then "delete" else "insert")
    (Z.of_nat (ch_start ch)) (ch_text ch) (Some (Z.of_nat (ch_rangeLength ch))).

End Client.

(** * Properties *)

(** ** Strings and slices *)

Section StringFacts.

Import JsString.

Lemma units_app (s1 s2 : string) : units (s1 +:+ s2) = (units s1 ++ units s2)%list.
Proof.
  unfold units. induction s1 as [|c s1 IH]; simpl; [done|]. by rewrite IH.
Qed.

Lemma length_units (s : string) : List.length (units s) = String.length s.
Proof.
  unfold units. induction s as [|c s IH]; simpl; [done|]. by rewrite IH.
Qed.

Lemma of_units_units (s : string) : of_units (units s) = s.
Proof. apply string_of_list_ascii_of_string. Qed.

Lemma units_of_units (l : list ascii) : units (of_units l) = l.
Proof. apply list_ascii_of_string_of_list_ascii. Qed.

Lemma units_inj (s1 s2 : string) : units s1 = units s2 → s1 = s2.
Proof.
  intros H. rewrite <- (of_units_units s1), <- (of_units_units s2). by rewrite H.
Qed.

Lemma units_substring (n m : nat) (s : string) :
  units (substring n m s) = take m (drop n (units s)).
Proof.
  unfold units. revert n m. induction s as [|c s IH]; intros n m.
  - destruct n, m; reflexivity.
  - destruct n as [|n].
    + destruct m as [|m]; simpl; [done|]. by rewrite (IH 0%nat m), drop_0.
    + simpl. apply IH.
Qed.

(** A slice from a non-negative offset to the end drops that many units. *)
Lemma units_slice_from (s : string) (a : Z) :
  0 ≤ a → units (slice s a None) = drop (Z.to_nat a) (units s).
Proof.
  intros Ha. unfold slice, resolve, length.
  assert (Hlen := length_units s).
  destruct (Z.ltb_spec a 0) as [?|_]; [lia|].
  destruct (Z.leb_spec (Z.of_nat (String.length s)) (Z.min a (Z.of_nat (String.length s))))
    as [Hle|Hlt].
  - rewrite drop_ge; [done | lia].
  - rewrite units_substring.
    replace (Z.to_nat (Z.min a (Z.of_nat (String.length s)))) with (Z.to_nat a) by lia.
    apply take_ge. rewrite length_drop. lia.
Qed.

(** A slice from 0 to a non-negative offset keeps that many units. *)
Lemma units_slice_upto (s : string) (b : Z) :
  0 ≤ b → units (slice s 0 (Some b)) = take (Z.to_nat b) (units s).
Proof.
  intros Hb. unfold slice, resolve, length.
  assert (Hlen := length_units s).
  destruct (Z.ltb_spec 0 0) as [?|_]; [lia|].
  destruct (Z.ltb_spec b 0) as [?|_]; [lia|].
  replace (Z.min 0 (Z.of_nat (String.length s))) with 0 by lia.
  destruct (Z.leb_spec (Z.min b (Z.of_nat (String.length s))) 0) as [Hle|Hlt].
  - destruct (decide (b = 0)) as [->|Hne]; [done|].
    assert (String.length s = 0%nat) as Hz by lia.
    destruct s; [by destruct (Z.to_nat b) | discriminate Hz].
  - rewrite units_substring, drop_0, Z.sub_0_r.
    destruct (Z.le_gt_cases b (Z.of_nat (String.length s))).
    + by replace (Z.min b (Z.of_nat (String.length s))) with b by lia.
    + replace (Z.min b (Z.of_nat (String.length s)))
        with (Z.of_nat (String.length s)) by lia.
      rewrite !take_ge; [done | lia | lia].
Qed.

End StringFacts.

Example slice_counts_from_end : JsString.slice "abcdef" (-2) None = "ef".
Proof. reflexivity. Qed.

(** ** The edit of a document (C1) *)

Lemma applyOperation_insert (op : DocumentOperation) (content : string) :
  op_type op = "insert" → 0 ≤ op_position op →
  applyOperation op content
  = Spec.insert content (Z.to_nat (op_position op)) (op_content op).
Proof.
  intros Hty Hpos. unfold applyOperation, Spec.insert, Spec.clamp.
  rewrite Hty. simpl. apply units_inj.
  rewrite !units_app, units_slice_upto, units_slice_from, units_of_units by done.
  destruct (Nat.le_gt_cases (Z.to_nat (op_position op))
              (List.length (JsString.units content))).
  - by rewrite Nat.min_l.
  - rewrite Nat.min_r by lia. rewrite !take_ge, !drop_ge by lia. done.
Qed.

Lemma applyOperation_delete (op : DocumentOperation) (content : string) :
  op_type op = "delete" → 0 ≤ op_position op → 0 ≤ op_length op →
  applyOperation op content
  = Spec.delete content (Z.to_nat (op_position op)) (Z.to_nat (op_length op)).
Proof.
  intros Hty Hpos Hlen. unfold applyOperation, Spec.delete, Spec.clamp.
  rewrite Hty. simpl. apply units_inj.
  rewrite !units_app, units_slice_upto, units_slice_from, units_of_units by lia.
  rewrite Z2Nat.inj_add by done.
  set (u := JsString.units content).
  set (p := Z.to_nat (op_position op)). set (n := Z.to_nat (op_length op)).
  f_equal.
  - destruct (Nat.le_gt_cases p (List.length u)).
    + by rewrite Nat.min_l.
    + rewrite Nat.min_r by lia. rewrite !take_ge by lia. done.
  - destruct (Nat.le_gt_cases (p + n) (List.length u)).
    + by rewrite Nat.min_l.
    + rewrite Nat.min_r by lia. rewrite !drop_ge by lia. done.
Qed.

Lemma insert_past_end (content text : string) (p : nat) :
  (String.length content ≤ p)%nat → Spec.insert content p text = content +:+ text.
Proof.
  intros Hp. unfold Spec.insert, Spec.clamp. apply units_inj.
  rewrite units_of_units, units_app, length_units, Nat.min_r by done.
  rewrite take_ge, drop_ge by (rewrite length_units; lia).
  by rewrite app_nil_r.
Qed.

Lemma delete_past_end (content : string) (p n : nat) :
  (String.length content ≤ p)%nat → Spec.delete content p n = content.
Proof.
  intros Hp. unfold Spec.delete, Spec.clamp. apply units_inj.
  rewrite units_of_units, length_units, !Nat.min_r by lia.
  rewrite take_ge, drop_ge by (rewrite length_units; lia).
  by rewrite app_nil_r.
Qed.

(** The number of units a delete removes: the size of the clamped window. *)
Lemma delete_length (content : string) (p n : nat) :
  String.length (Spec.delete content p n)
  = (String.length content
     - (Nat.min (p + n) (String.length content) - Nat.min p (String.length content)))%nat.
Proof.
  rewrite <- (length_units (Spec.delete _ _ _)). unfold Spec.delete, Spec.clamp.
  rewrite units_of_units, length_app, length_take, length_drop, length_units. lia.
Qed.

(** What the document-operation listener leaves in the room's document. *)
Lemma on_document_operation_content (e : env) (sid type : string) (position : Z)
    (content : string) (length : option Z) (st : server) (s : session) (r : room) :
  userSessions st !! sid = Some s →
  rooms st !! sess_roomId s = Some r →
  doc_content ∘ room_document <$>
    rooms (on_document_operation e sid type position content length st).1
      !! sess_roomId s
  = Some (applyOperation (newDocumentOperation e type position content length)
            (doc_content (room_document r))).
Proof.
  intros Hs Hr. unfold on_document_operation. rewrite Hs, Hr. simpl.
  by rewrite lookup_insert_eq.
Qed.

(** A room applies the operations in the order they arrive: after a run of
    document-operation messages from connections whose sessions name the
    room, the content is the left-to-right fold of the edits. *)
Lemma document_operations_in_order (evs : list arrival) (st : server)
    (rid : string) (r : room) :
  rooms st !! rid = Some r →
  Forall (λ x, ∃ s, userSessions st !! arrival_sender x = Some s
                    ∧ sess_roomId s = rid) evs →
  doc_content ∘ room_document <$> rooms (run (arrival_input <$> evs) st) !! rid
  = Some (fold_left arrival_edit evs (doc_content (room_document r))).
Proof.
  revert st r. induction evs as [|[[e sid] [[[ty pos] ct] len]] evs IH];
    intros st r Hr Hall.
  - simpl. by rewrite Hr.
  - apply Forall_cons in Hall as [(s & Hs & <-) Hall].
    unfold arrival_sender in Hs. simpl in Hs.
    cbn [fmap list_fmap arrival_input run fold_left arrival_edit step].
    unfold on_document_operation at 1. rewrite Hs, Hr. cbn [fst].
    etrans; [apply IH; [simpl; apply lookup_insert_eq | exact Hall] | reflexivity].
Qed.

Example scenario_after_insert :
  (doc_content ∘ room_document <$> rooms (run scenario_insert init) !! "r1")
  = Some ("X" +:+ welcome).
Proof. vm_compute. reflexivity. Qed.

Example scenario_after_delete :
  (doc_content ∘ room_document <$> rooms (run scenario_delete init) !! "r1")
  = Some welcome.
Proof. vm_compute. reflexivity. Qed.

(** C1, as amended. For every content and every operation whose position and
    length are non-negative (the data model's offsets and counts), the edit performed by
    the document-operation listener is the edit of the specification: an
    insert splits the content at the position clamped to the length and puts
    the text between the halves, so a position past the end appends; a delete
    removes the window clamped to [0, length content], so a delete at or past
    the end removes nothing. The edit is a total function: no position makes
    it fail. The listener stores exactly this edit in the room. *)
Theorem apply_is_sequential_edit (content : string) (op : DocumentOperation) :
  0 ≤ op_position op →
  0 ≤ op_length op →
  (op_type op = "insert" →
     applyOperation op content
     = Spec.insert content (Z.to_nat (op_position op)) (op_content op)
     ∧ (JsString.length content ≤ op_position op →
        applyOperation op content = content +:+ op_content op))
  ∧ (op_type op = "delete" →
     applyOperation op content
     = Spec.delete content (Z.to_nat (op_position op)) (Z.to_nat (op_length op))
     ∧ (JsString.length content ≤ op_position op →
        applyOperation op content = content))
  ∧ (∀ e sid st s r,
       userSessions st !! sid = Some s →
       rooms st !! sess_roomId s = Some r →
       doc_content (room_document r) = content →
       doc_content ∘ room_document <$>
         rooms (step e (FromSocket sid
                  (DocumentOperationEv (op_type op) (op_position op)
                     (op_content op) (Some (op_length op)))) st).1
           !! sess_roomId s
       = Some (applyOperation op content)).
Proof.
  intros Hpos Hlen. split; [|split].
  - intros Hty. rewrite applyOperation_insert by done. split; [done|].
    unfold JsString.length. intros Hpast. apply insert_past_end. lia.
  - intros Hty. rewrite applyOperation_delete by done. split; [done|].
    unfold JsString.length. intros Hpast. apply delete_past_end. lia.
  - intros e sid st s r Hs Hr <-. simpl.
    rewrite (on_document_operation_content _ _ _ _ _ _ _ _ _ Hs Hr).
    reflexivity.
Qed.

Lemma apply_is_sequential_edit_witness :
  applyOperation (MkOperation "delete" 1 EmptyString 5 "id" 0) "abc" = "a"
  ∧ applyOperation (MkOperation "insert" 9 "XY" 0 "id" 0) "abc" = "abcXY".
Proof.
  split.
  - destruct (apply_is_sequential_edit "abc"
                (MkOperation "delete" 1 EmptyString 5 "id" 0)) as (_ & Hd & _);
      [simpl; lia | simpl; lia |].
    destruct (Hd eq_refl) as [-> _]. reflexivity.
  - destruct (apply_is_sequential_edit "abc"
                (MkOperation "insert" 9 "XY" 0 "id" 0)) as (Hi & _ & _);
      [simpl; lia | simpl; lia |].
    destruct (Hi eq_refl) as [_ Hp].
    rewrite Hp; [reflexivity | vm_compute; discriminate].
Defined.

(** Outside the data model: a negative position is not clamped to 0 by
    [slice], it counts from the end. *)
Example applyOperation_negative_position :
  applyOperation (MkOperation "delete" (-1) EmptyString 2 "id" 0) "abc" = "abbc".
Proof. reflexivity. Qed.

(** ** The transform (C7) *)

(** C7, as amended. When A.position <= B.position and A is an insert or a
    delete, the transform returns a new operation: B's type, content and
    length, a fresh id and timestamp, and B's position moved forward by the
    length of A's text (A an insert) or backward by
    min(A.length, B.position - A.position), hence not below A.position (A a
    delete). When A.position > B.position, B itself is returned. *)
Theorem transformOperation_spec (e : env) (A B : DocumentOperation) :
  (op_position A ≤ op_position B → op_type A = "insert" →
     transformOperation e A B
     = {| op_type := op_type B;
          op_position := op_position B + JsString.length (op_content A);
          op_content := op_content B;
          op_length := op_length B;
          op_id := uuid e;
          op_timestamp := now e |})
  ∧ (op_position A ≤ op_position B → op_type A = "delete" →
     transformOperation e A B
     = {| op_type := op_type B;
          op_position :=
            op_position B - Z.min (op_length A) (op_position B - op_position A);
          op_content := op_content B;
          op_length := op_length B;
          op_id := uuid e;
          op_timestamp := now e |}
     ∧ op_position A ≤ op_position (transformOperation e A B))
  ∧ (op_position A > op_position B → transformOperation e A B = B).
Proof.
  unfold transformOperation, newDocumentOperation. split; [|split].
  - intros Hle Hty. rewrite Hty. simpl.
    destruct (Z.leb_spec (op_position A) (op_position B)); [done | lia].
  - intros Hle Hty. rewrite Hty. simpl.
    destruct (Z.leb_spec (op_position A) (op_position B)); [|lia].
    simpl. split; [f_equal; lia | lia].
  - intros Hgt.
    destruct (Z.leb_spec (op_position A) (op_position B)); [lia | done].
Qed.

Lemma transformOperation_spec_witness :
  op_position (transformOperation (Env 9 "fresh" 0 0 0)
                 (MkOperation "delete" 2 EmptyString 10 "a" 1)
                 (MkOperation "insert" 5 "y" 0 "b" 2)) = 2.
Proof.
  destruct (transformOperation_spec (Env 9 "fresh" 0 0 0)
              (MkOperation "delete" 2 EmptyString 10 "a" 1)
              (MkOperation "insert" 5 "y" 0 "b" 2)) as (_ & Hd & _).
  destruct Hd as [-> _]; [simpl; lia | reflexivity | reflexivity].
Defined.

(** C7, counterexample. The operation returned for A.position <= B.position is not B with only
    its position changed: its id and timestamp are new. *)
Lemma transformOperation_renews_identity :
  ¬ only_position_changed
      (MkOperation "insert" 5 "y" 0 "b" 2)
      (transformOperation (Env 9 "fresh" 0 0 0)
         (MkOperation "insert" 0 "x" 0 "a" 1)
         (MkOperation "insert" 5 "y" 0 "b" 2)).
Proof. intros (_ & _ & _ & Hid & _). vm_compute in Hid. discriminate Hid. Qed.

(** ** The socket.io table *)

Section SocketIOFacts.

Import SocketIO.
Implicit Types (t : gmap string (gset string)) (sid r : string).

Lemma members_join t sid r r' :
  members (join sid r t) r'
  = if decide (r = r') then {[sid]} ∪ members t r else members t r'.
Proof.
  unfold join, members at 1. case_decide as Hr.
  - subst. by rewrite lookup_insert_eq.
  - by rewrite lookup_insert_ne.
Qed.

Lemma members_leave t sid r r' :
  members (leave sid r t) r'
  = if decide (r = r') then members t r ∖ {[sid]} else members t r'.
Proof.
  unfold leave, members at 1. case_decide as Hr.
  - subst. by rewrite lookup_insert_eq.
  - by rewrite lookup_insert_ne.
Qed.

Lemma members_leaveAll t sid r :
  members (leaveAll sid t) r = members t r ∖ {[sid]}.
Proof.
  unfold leaveAll, members. rewrite lookup_fmap.
  destruct (t !! r); simpl; [done|].
  apply set_eq. intros x. rewrite elem_of_difference, elem_of_empty. tauto.
Qed.

Lemma elem_of_members_join t sid r r' x :
  x ∈ members t r' → x ∈ members (join sid r t) r'.
Proof.
  rewrite members_join. case_decide; [subst|]; [|done].
  intros Hx. by apply elem_of_union_r.
Qed.

Lemma socket_to_skips_own_room t sid r :
  sid ∈ members t sid → sid ∉ socket_to t sid r.
Proof. unfold socket_to. rewrite elem_of_difference. tauto. Qed.

Lemma socket_to_skips_absent t sid r :
  sid ∉ members t r → sid ∉ socket_to t sid r.
Proof. unfold socket_to. rewrite elem_of_difference. tauto. Qed.

End SocketIOFacts.

(** ** Consistency of the session map and the room directory *)

Lemma consistent_init : consistent init.
Proof. split; simpl; intros *; by rewrite lookup_empty. Qed.

Lemma leave_previous_sessions (sid : string) (st : server) :
  userSessions (leave_previous sid st).1 = userSessions st.
Proof.
  unfold leave_previous. destruct (userSessions st !! sid) as [s|]; [|done].
  simpl. by destruct (rooms st !! sess_roomId s).
Qed.

Lemma leave_previous_timers (sid : string) (st : server) :
  timers (leave_previous sid st).1 = timers st.
Proof.
  unfold leave_previous. destruct (userSessions st !! sid) as [s|]; [|done].
  simpl. by destruct (rooms st !! sess_roomId s).
Qed.

Lemma leave_previous_consistent (sid : string) (st : server) :
  consistent st → consistent_but sid (leave_previous sid st).1.
Proof.
  intros [Hsr Hus Huj]. unfold leave_previous.
  destruct (userSessions st !! sid) as [s|] eqn:Hs.
  - destruct (Hsr _ _ Hs) as (proom & Hproom & Hsid). simpl. rewrite Hproom. simpl.
    split; simpl.
    + intros sid' s' Hne Hs'. destruct (Hsr _ _ Hs') as (r & Hr & Hu).
      destruct (decide (sess_roomId s' = sess_roomId s)) as [Heq|Hneq].
      * rewrite Heq, lookup_insert_eq. eexists; split; [done|]. simpl.
        rewrite lookup_delete_ne by done. congruence.
      * rewrite lookup_insert_ne by done. eauto.
    + intros rid r sid' u Hr Hu.
      destruct (decide (sess_roomId s = rid)) as [<-|Hneq].
      * rewrite lookup_insert_eq in Hr. injection Hr as <-. simpl in Hu.
        apply lookup_delete_Some in Hu as [Hne Hu]. split; [done|]. eauto.
      * rewrite lookup_insert_ne in Hr by done.
        destruct (Hus _ _ _ _ Hr Hu) as (s' & Hs' & Hrid). split; [|eauto].
        intros ->. congruence.
    + intros rid r sid' u Hr Hu. rewrite members_leave.
      destruct (decide (sess_roomId s = rid)) as [<-|Hneq].
      * rewrite lookup_insert_eq in Hr. injection Hr as <-. simpl in Hu.
        apply lookup_delete_Some in Hu as [Hne Hu].
        apply elem_of_difference. split; [eauto | set_solver].
      * rewrite lookup_insert_ne in Hr by done. eauto.
  - split; simpl.
    + intros sid' s' _ Hs'. eauto.
    + intros rid r sid' u Hr Hu. destruct (Hus _ _ _ _ Hr Hu) as (s' & Hs' & Hrid).
      split; [|eauto]. intros ->. congruence.
    + eauto.
Qed.

(** *** join-room *)

(** The state a join leaves, in one expression over the state reached after
    the previous room was left. *)
Lemma on_join_room_state (e : env) (sid roomId : string) (userName : option string)
    (st : server) :
  let st1 := (leave_previous sid st).1 in
  let room0 := default (fresh_room e roomId) (rooms st1 !! roomId) in
  (on_join_room e sid roomId userName st).1
  = {| rooms :=
         <[roomId := with_lastActivity (now e)
                       (with_users (insert sid (joined_user e sid userName)) room0)]>
           (rooms st1);
       userSessions :=
         <[sid := {| sess_roomId := roomId;
                     sess_user := joined_user e sid userName |}]> (userSessions st1);
       sio := SocketIO.join sid roomId (sio st1);
       timers := timers st1 |}.
Proof.
  unfold on_join_room. destruct (leave_previous sid st) as [st1 out1]. simpl.
  destruct (rooms st1 !! roomId) as [r|] eqn:Hr; simpl.
  - reflexivity.
  - unfold set_rooms, set_userSessions, set_sio. simpl.
    by rewrite insert_insert_eq.
Qed.

Lemma on_join_room_consistent (e : env) (sid roomId : string)
    (userName : option string) (st : server) :
  consistent st → consistent (on_join_room e sid roomId userName st).1.
Proof.
  intros Hc. rewrite on_join_room_state.
  destruct (leave_previous_consistent sid st Hc) as [Hsr Hus Huj].
  set (st1 := (leave_previous sid st).1) in *.
  set (u := joined_user e sid userName).
  split; simpl.
  - intros sid' s' Hs'. destruct (decide (sid = sid')) as [<-|Hne].
    + rewrite lookup_insert_eq in Hs'. injection Hs' as <-. simpl.
      rewrite lookup_insert_eq. eexists; split; [done|]. simpl.
      by rewrite lookup_insert_eq.
    + rewrite lookup_insert_ne in Hs' by done.
      destruct (Hsr _ _ (not_eq_sym Hne) Hs') as (r & Hr & Hu).
      destruct (decide (roomId = sess_roomId s')) as [Heq|Hneq].
      * rewrite <- Heq in *. rewrite lookup_insert_eq, Hr. simpl.
        eexists; split; [done|]. simpl. by rewrite lookup_insert_ne.
      * rewrite lookup_insert_ne by done. eauto.
  - intros rid r sid' u' Hr Hu'. destruct (decide (roomId = rid)) as [<-|Hneq].
    + rewrite lookup_insert_eq in Hr. injection Hr as <-. simpl in Hu'.
      destruct (decide (sid = sid')) as [<-|Hne].
      * rewrite lookup_insert_eq. eauto.
      * rewrite lookup_insert_ne in Hu' by done. rewrite lookup_insert_ne by done.
        destruct (rooms st1 !! roomId) as [r0|] eqn:Hr0; simpl in Hu'.
        -- by destruct (Hus _ _ _ _ Hr0 Hu') as [_ ?].
        -- by rewrite lookup_empty in Hu'.
    + rewrite lookup_insert_ne in Hr by done.
      destruct (Hus _ _ _ _ Hr Hu') as (Hne & s' & Hs' & Hrid).
      rewrite lookup_insert_ne by done. eauto.
  - intros rid r sid' u' Hr Hu'. rewrite members_join.
    destruct (decide (roomId = rid)) as [<-|Hneq].
    + rewrite lookup_insert_eq in Hr. injection Hr as <-. simpl in Hu'.
      destruct (decide (sid = sid')) as [<-|Hne];
        [by apply elem_of_union_l, elem_of_singleton|].
      rewrite lookup_insert_ne in Hu' by done.
      destruct (rooms st1 !! roomId) as [r0|] eqn:Hr0; simpl in Hu'.
      * apply elem_of_union_r. eauto.
      * by rewrite lookup_empty in Hu'.
    + rewrite lookup_insert_ne in Hr by done. eauto.
Qed.

(** *** Listeners that rewrite one room and keep its users *)

Lemma consistent_update_room (st : server) (rid : string) (r r' : room) :
  rooms st !! rid = Some r →
  room_users r' = room_users r →
  consistent st → consistent (set_rooms (insert rid r') st).
Proof.
  intros Hrid Husers [Hsr Hus Huj]. split; simpl.
  - intros sid s Hs. destruct (Hsr _ _ Hs) as (r0 & Hr0 & Hu).
    destruct (decide (rid = sess_roomId s)) as [Heq|Hneq].
    + rewrite <- Heq in *. rewrite lookup_insert_eq. eexists; split; [done|].
      rewrite Husers. congruence.
    + rewrite lookup_insert_ne by done. eauto.
  - intros rid0 r0 sid u Hr0 Hu. destruct (decide (rid = rid0)) as [<-|Hneq].
    + rewrite lookup_insert_eq in Hr0. injection Hr0 as <-.
      rewrite Husers in Hu. eauto.
    + rewrite lookup_insert_ne in Hr0 by done. eauto.
  - intros rid0 r0 sid u Hr0 Hu. destruct (decide (rid = rid0)) as [<-|Hneq].
    + rewrite lookup_insert_eq in Hr0. injection Hr0 as <-.
      rewrite Husers in Hu. eauto.
    + rewrite lookup_insert_ne in Hr0 by done. eauto.
Qed.

Lemma on_document_operation_consistent e sid type position content length st :
  consistent st →
  consistent (on_document_operation e sid type position content length st).1.
Proof.
  intros Hc. unfold on_document_operation.
  destruct (userSessions st !! sid) as [s|]; [|done].
  destruct (rooms st !! sess_roomId s) as [r|] eqn:Hr; [|done].
  simpl. by eapply consistent_update_room.
Qed.

Lemma on_language_change_consistent e sid language st :
  consistent st → consistent (on_language_change e sid language st).1.
Proof.
  intros Hc. unfold on_language_change.
  destruct (userSessions st !! sid) as [s|]; [|done].
  destruct (rooms st !! sess_roomId s) as [r|] eqn:Hr; [|done].
  simpl. by eapply consistent_update_room.
Qed.

Lemma on_chat_message_consistent e sid message st :
  consistent st → consistent (on_chat_message e sid message st).1.
Proof.
  intros Hc. unfold on_chat_message.
  destruct (userSessions st !! sid) as [s|]; [|done].
  destruct (rooms st !! sess_roomId s) as [r|] eqn:Hr; [|done].
  simpl. by eapply consistent_update_room.
Qed.

Lemma on_ai_assistance_state e sid position context st :
  (on_ai_assistance e sid position context st).1 = st.
Proof. unfold on_ai_assistance. by destruct (userSessions st !! sid). Qed.

(** *** cursor-position *)

Lemma on_cursor_position_consistent sid c st :
  consistent st → consistent (on_cursor_position sid c st).1.
Proof.
  intros [Hsr Hus Huj]. unfold on_cursor_position.
  destruct (userSessions st !! sid) as [s|] eqn:Hs; [|by split].
  destruct (rooms st !! sess_roomId s) as [r|] eqn:Hr; [|by split].
  assert (room_users r !! sid = Some (sess_user s)) as Hmine.
  { destruct (Hsr _ _ Hs) as (r0 & Hr0 & Hu). congruence. }
  split; simpl.
  - intros sid' s' Hs'. destruct (decide (sid = sid')) as [<-|Hne].
    + rewrite lookup_insert_eq in Hs'. injection Hs' as <-. simpl.
      rewrite lookup_insert_eq. eexists; split; [done|]. simpl.
      by rewrite lookup_insert_eq.
    + rewrite lookup_insert_ne in Hs' by done.
      destruct (Hsr _ _ Hs') as (r0 & Hr0 & Hu).
      destruct (decide (sess_roomId s = sess_roomId s')) as [Heq|Hneq].
      * rewrite <- Heq in *. rewrite lookup_insert_eq. eexists; split; [done|].
        simpl. rewrite lookup_insert_ne by done. congruence.
      * rewrite lookup_insert_ne by done. eauto.
  - intros rid r0 sid' u Hr0 Hu. destruct (decide (sid = sid')) as [<-|Hne].
    + rewrite lookup_insert_eq. eexists; split; [done|]. simpl.
      destruct (decide (sess_roomId s = rid)) as [|Hneq]; [done|].
      rewrite lookup_insert_ne in Hr0 by done.
      destruct (Hus _ _ _ _ Hr0 Hu) as (s' & Hs' & Hrid). congruence.
    + rewrite lookup_insert_ne by done.
      destruct (decide (sess_roomId s = rid)) as [<-|Hneq].
      * rewrite lookup_insert_eq in Hr0. injection Hr0 as <-. simpl in Hu.
        rewrite lookup_insert_ne in Hu by done. eauto.
      * rewrite lookup_insert_ne in Hr0 by done. eauto.
  - intros rid r0 sid' u Hr0 Hu.
    destruct (decide (sess_roomId s = rid)) as [<-|Hneq].
    + rewrite lookup_insert_eq in Hr0. injection Hr0 as <-. simpl in Hu.
      destruct (decide (sid = sid')) as [<-|Hne]; [eauto|].
      rewrite lookup_insert_ne in Hu by done. eauto.
    + rewrite lookup_insert_ne in Hr0 by done. eauto.
Qed.

(** *** disconnect *)

(** The three maps a disconnect leaves. *)
Lemma on_disconnect_state (e : env) (sid : string) (st : server) :
  let st' := (on_disconnect e sid st).1 in
  sio st' = SocketIO.leaveAll sid (sio st)
  ∧ userSessions st' = delete sid (userSessions st)
  ∧ rooms st'
    = match userSessions st !! sid with
      | Some s =>
          match rooms st !! sess_roomId s with
          | Some r =>
              <[sess_roomId s :=
                  with_lastActivity (now e) (with_users (delete sid) r)]> (rooms st)
          | None => rooms st
          end
      | None => rooms st
      end.
Proof.
  unfold on_disconnect. simpl.
  destruct (userSessions st !! sid) as [s|] eqn:Hs; simpl.
  - destruct (rooms st !! sess_roomId s) as [r|]; simpl.
    + by case_decide.
    + done.
  - split; [done|]. split; [|done]. symmetry. by apply delete_id.
Qed.

Lemma on_disconnect_consistent e sid st :
  consistent st → consistent (on_disconnect e sid st).1.
Proof.
  intros [Hsr Hus Huj].
  destruct (on_disconnect_state e sid st) as (Hsio & Hsess & Hrooms).
  assert (∀ rid r sid' u,
    rooms (on_disconnect e sid st).1 !! rid = Some r →
    room_users r !! sid' = Some u →
    sid' ≠ sid ∧ ∃ r0, rooms st !! rid = Some r0 ∧ room_users r0 !! sid' = Some u)
    as Hback.
  { intros rid r sid' u Hr Hu. rewrite Hrooms in Hr.
    destruct (userSessions st !! sid) as [s|] eqn:Hs.
    - destruct (Hsr _ _ Hs) as (r0 & Hr0 & Hu0). rewrite Hr0 in Hr.
      destruct (decide (sess_roomId s = rid)) as [<-|Hneq].
      + rewrite lookup_insert_eq in Hr. injection Hr as <-. simpl in Hu.
        apply lookup_delete_Some in Hu as [Hne Hu]. split; [done|]. eauto.
      + rewrite lookup_insert_ne in Hr by done. split; [|eauto].
        intros ->. destruct (Hus _ _ _ _ Hr Hu) as (s' & Hs' & Hrid). congruence.
    - split; [|eauto]. intros ->.
      destruct (Hus _ _ _ _ Hr Hu) as (s' & Hs' & Hrid). congruence. }
  split.
  - intros sid' s' Hs'. rewrite Hsess in Hs'.
    apply lookup_delete_Some in Hs' as [Hne Hs'].
    destruct (Hsr _ _ Hs') as (r & Hr & Hu). rewrite Hrooms.
    destruct (userSessions st !! sid) as [s|] eqn:Hs; [|eauto].
    destruct (Hsr _ _ Hs) as (r0 & Hr0 & Hu0). rewrite Hr0.
    destruct (decide (sess_roomId s = sess_roomId s')) as [Heq|Hneq].
    + rewrite <- Heq in *. rewrite lookup_insert_eq. eexists; split; [done|].
      simpl. rewrite lookup_delete_ne by done. congruence.
    + rewrite lookup_insert_ne by done. eauto.
  - intros rid r sid' u Hr Hu.
    destruct (Hback _ _ _ _ Hr Hu) as (Hne & r0 & Hr0 & Hu0).
    rewrite Hsess, lookup_delete_ne by done. eauto.
  - intros rid r sid' u Hr Hu.
    destruct (Hback _ _ _ _ Hr Hu) as (Hne & r0 & Hr0 & Hu0).
    rewrite Hsio, members_leaveAll. apply elem_of_difference.
    split; [eauto|]. by apply not_elem_of_singleton.
Qed.

(** *** cleanup timer *)

Lemma cleanup_consistent rid st : consistent st → consistent (cleanup rid st).
Proof.
  intros [Hsr Hus Huj]. unfold cleanup.
  destruct (rooms st !! rid) as [r|] eqn:Hr; [|by split].
  case_decide as Hsize; [|by split].
  apply map_size_empty_iff in Hsize.
  split; simpl.
  - intros sid s Hs. destruct (Hsr _ _ Hs) as (r0 & Hr0 & Hu).
    destruct (decide (rid = sess_roomId s)) as [Heq|Hneq].
    + rewrite <- Heq in Hr0. rewrite Hr in Hr0. injection Hr0 as <-.
      by rewrite Hsize, lookup_empty in Hu.
    + rewrite lookup_delete_ne by done. eauto.
  - intros rid0 r0 sid u Hr0 Hu. apply lookup_delete_Some in Hr0 as [_ Hr0]. eauto.
  - intros rid0 r0 sid u Hr0 Hu. apply lookup_delete_Some in Hr0 as [_ Hr0]. eauto.
Qed.

Lemma consistent_set_timers f st : consistent st → consistent (set_timers f st).
Proof. intros [Hsr Hus Huj]. by split. Qed.

Lemma on_timer_consistent e i st : consistent st → consistent (on_timer e i st).
Proof.
  intros Hc. unfold on_timer. destruct (timers st !! i) as [[due rid]|]; [|done].
  destruct (due <=? now e); [|done].
  by apply cleanup_consistent, consistent_set_timers.
Qed.

(** *** Every step, every reachable state *)

Lemma step_consistent (e : env) (inp : input) (st : server) :
  consistent st → consistent (step e inp st).1.
Proof.
  intros Hc. destruct inp as [sid ev|i]; [destruct ev|]; simpl.
  - destruct Hc as [Hsr Hus Huj]. split; simpl; [done | done |].
    intros rid r sid' u Hr Hu. apply elem_of_members_join. eauto.
  - by apply on_join_room_consistent.
  - by apply on_document_operation_consistent.
  - by apply on_cursor_position_consistent.
  - by apply on_language_change_consistent.
  - by apply on_chat_message_consistent.
  - by rewrite on_ai_assistance_state.
  - by apply on_disconnect_consistent.
  - by apply on_timer_consistent.
Qed.

Lemma run_consistent (tr : list (env * input)) (st : server) :
  consistent st → consistent (run tr st).
Proof.
  revert st. induction tr as [|[e inp] tr IH]; intros st Hc; simpl; [done|].
  by apply IH, step_consistent.
Qed.

Lemma reachable_consistent (st : server) : reachable st → consistent st.
Proof. intros [tr <-]. apply run_consistent, consistent_init. Qed.

Lemma reachable_run (tr : list (env * input)) : reachable (run tr init).
Proof. by exists tr. Qed.

Lemma run_app (tr1 tr2 : list (env * input)) (st : server) :
  run (tr1 ++ tr2)%list st = run tr2 (run tr1 st).
Proof.
  revert st. induction tr1 as [|[e inp] tr1 IH]; intros st; simpl; [done|].
  apply IH.
Qed.

Lemma reachable_step (e : env) (inp : input) (st : server) :
  reachable st → reachable (step e inp st).1.
Proof.
  intros [tr <-]. exists (tr ++ [(e, inp)])%list. by rewrite run_app.
Qed.

(** ** Sessions and rooms agree (C10) *)

(** C10. In every state reachable from the empty state by join-room,
    document-operation, cursor-position, language-change, chat-message,
    disconnect and cleanup-timer inputs (and connections and ai-assistance
    requests), every session names a room of the directory whose user map
    holds the session's connection id, and every connection id held in a
    room's user map has a session naming that room. *)
Theorem sessions_and_rooms_agree (st : server) :
  reachable st →
  (∀ sid s, userSessions st !! sid = Some s →
     ∃ r, rooms st !! sess_roomId s = Some r ∧ is_Some (room_users r !! sid))
  ∧ (∀ rid r sid, rooms st !! rid = Some r → is_Some (room_users r !! sid) →
     ∃ s, userSessions st !! sid = Some s ∧ sess_roomId s = rid).
Proof.
  intros Hreach. destruct (reachable_consistent st Hreach) as [Hsr Hus _]. split.
  - intros sid s Hs. destruct (Hsr _ _ Hs) as (r & Hr & Hu). eauto.
  - intros rid r sid Hr [u Hu]. eauto.
Qed.

Lemma sessions_and_rooms_agree_witness :
  ∃ r, rooms (run alice_and_bob init) !! "r1" = Some r
       ∧ is_Some (room_users r !! "b").
Proof.
  destruct (sessions_and_rooms_agree (run alice_and_bob init)
              (reachable_run alice_and_bob)) as [Hsr _].
  apply (Hsr "b" {| sess_roomId := "r1";
                    sess_user := joined_user (at_time 30) "b" (Some "Bob") |}).
  vm_compute. reflexivity.
Defined.

(** ** Messages without a session or without a room (C8) *)

(** C8. A document-operation, cursor-position, language-change or
    chat-message from a connection that has no session, or whose session
    names a room that is not in the directory, is ignored: the state is
    unchanged and nothing is emitted (to anyone, the sender included). *)
Theorem stray_message_ignored (e : env) (sid : string) (ev : event) (st : server) :
  room_message ev = true →
  userSessions st !! sid = None
  ∨ (∃ s, userSessions st !! sid = Some s ∧ rooms st !! sess_roomId s = None) →
  step e (FromSocket sid ev) st = (st, []).
Proof.
  intros Hev Hstray. destruct ev; try discriminate Hev; simpl;
    [unfold on_document_operation | unfold on_cursor_position
    | unfold on_language_change | unfold on_chat_message];
    destruct Hstray as [->|(s & -> & ->)]; reflexivity.
Qed.

Lemma stray_message_ignored_witness :
  step (at_time 5) (FromSocket "a" (ChatMessageEv "hello")) init = (init, []).
Proof.
  apply stray_message_ignored; [reflexivity | left; reflexivity].
Defined.

(** ** Lazy creation of rooms (C3) *)

(** Leaving the previous room touches the user map of rooms, nothing else. *)
Lemma leave_previous_rooms (sid rid : string) (st : server) :
  ∃ f, rooms (leave_previous sid st).1 !! rid = with_users f <$> rooms st !! rid.
Proof.
  unfold leave_previous. destruct (userSessions st !! sid) as [s|].
  - simpl. destruct (rooms st !! sess_roomId s) as [p|] eqn:Hp; simpl.
    + destruct (decide (sess_roomId s = rid)) as [<-|Hne].
      * exists (delete sid). by rewrite lookup_insert_eq, Hp.
      * exists id. rewrite lookup_insert_ne by done.
        destruct (rooms st !! rid) as [[]|]; reflexivity.
    + exists id. destruct (rooms st !! rid) as [[]|]; reflexivity.
  - exists id. simpl. destruct (rooms st !! rid) as [[]|]; reflexivity.
Qed.

Lemma leave_previous_dom (sid : string) (st : server) :
  dom (rooms (leave_previous sid st).1) = dom (rooms st).
Proof.
  apply set_eq. intros rid. rewrite !elem_of_dom.
  destruct (leave_previous_rooms sid rid st) as [f ->].
  by rewrite fmap_is_Some.
Qed.

(** C3. A join-room naming an id that is not in the directory adds exactly
    that id to the directory, with a room whose document is the welcome text
    in the default language and whose chat is empty; a join-room naming an id
    that is in the directory adds no id and leaves that room's document and
    chat as they were. The directory being a map, an id never has two
    rooms. *)
Theorem join_creates_room_once (e : env) (sid roomId : string)
    (userName : option string) (st : server) :
  let st' := (step e (FromSocket sid (JoinRoom roomId userName)) st).1 in
  (rooms st !! roomId = None →
     dom (rooms st') = {[roomId]} ∪ dom (rooms st)
     ∧ size (rooms st') = S (size (rooms st))
     ∧ ∃ r, rooms st' !! roomId = Some r
            ∧ room_id r = roomId
            ∧ room_document r
              = {| doc_content := welcome; doc_language := default_language |}
            ∧ room_chat r = [])
  ∧ (∀ r0, rooms st !! roomId = Some r0 →
     dom (rooms st') = dom (rooms st)
     ∧ size (rooms st') = size (rooms st)
     ∧ ∃ r, rooms st' !! roomId = Some r
            ∧ room_document r = room_document r0
            ∧ room_chat r = room_chat r0)
  ∧ (∀ r1 r2, rooms st' !! roomId = Some r1 → rooms st' !! roomId = Some r2 → r1 = r2).
Proof.
  simpl. rewrite on_join_room_state. simpl.
  destruct (leave_previous_rooms sid roomId st) as [f Hf].
  pose proof (leave_previous_dom sid st) as Hdom.
  split; [|split].
  - intros Hnone. rewrite Hnone in Hf. simpl in Hf. rewrite Hf. simpl.
    split; [by rewrite dom_insert_L, Hdom|].
    split.
    + rewrite map_size_insert_None by done.
      by rewrite <- !size_dom, Hdom.
    + rewrite lookup_insert_eq. eexists; split; [done|]. done.
  - intros r0 Hsome. rewrite Hsome in Hf. simpl in Hf. rewrite Hf. simpl.
    assert (roomId ∈ dom (rooms st)) as Hin by (apply elem_of_dom; eauto).
    split; [rewrite dom_insert_L, Hdom; by apply subseteq_union_1_L, singleton_subseteq_l|].
    split.
    + rewrite map_size_insert_Some by (rewrite Hf; eauto).
      by rewrite <- !size_dom, Hdom.
    + rewrite lookup_insert_eq. eexists; split; [done|]. done.
  - intros r1 r2 H1 H2. congruence.
Qed.

Lemma join_creates_room_once_witness :
  ∃ r, rooms (step (at_time 0) (FromSocket "a" (JoinRoom "r1" None)) init).1 !! "r1"
       = Some r
       ∧ doc_content (room_document r) = welcome.
Proof.
  destruct (join_creates_room_once (at_time 0) "a" "r1" None init) as (Hnew & _ & _).
  destruct Hnew as (_ & _ & r & Hr & _ & Hdoc & _); [reflexivity|].
  exists r. split; [exact Hr | by rewrite Hdoc].
Defined.

(** ** The cleanup timer (C4) *)

(** A disconnect that empties the room schedules its cleanup one grace
    period later. *)
Lemma on_disconnect_schedules (e : env) (sid : string) (st : server) (s : session)
    (r : room) :
  userSessions st !! sid = Some s → rooms st !! sess_roomId s = Some r →
  timers (on_disconnect e sid st).1
  = if decide (size (delete sid (room_users r)) = 0%nat)
    then (timers st ++ [(now e + grace, sess_roomId s)])%list
    else timers st.
Proof.
  intros Hs Hr. unfold on_disconnect. simpl. rewrite Hs. simpl. rewrite Hr. simpl.
  by case_decide.
Qed.

Lemma cleanup_rooms (rid : string) (st : server) :
  rooms (cleanup rid st)
  = match rooms st !! rid with
    | Some r => if decide (room_users r = ∅) then delete rid (rooms st) else rooms st
    | None => rooms st
    end.
Proof.
  unfold cleanup. destruct (rooms st !! rid) as [r|]; [|done].
  destruct (decide (size (room_users r) = 0%nat)) as [Hz|Hnz];
    destruct (decide (room_users r = ∅)) as [He|Hne]; try done.
  - by apply map_size_empty_iff in Hz.
  - by rewrite He, map_size_empty in Hnz.
Qed.

(** C4, as amended. When the cleanup scheduled for a room fires, at or after
    its due time, the room is deleted if and only if it is at that moment in
    the directory with zero users: a room with a user at that moment is kept,
    a room with zero users at that moment is removed, no other room is
    touched. Whether the room had users between the scheduling and the
    firing plays no part. *)
Theorem cleanup_fires (e : env) (i : nat) (st : server) (due : Z) (rid : string) :
  timers st !! i = Some (due, rid) →
  due ≤ now e →
  let st' := (step e (TimerFire i) st).1 in
  (∀ r, rooms st !! rid = Some r → room_users r ≠ ∅ → rooms st' = rooms st)
  ∧ (∀ r, rooms st !! rid = Some r → room_users r = ∅ →
       rooms st' = delete rid (rooms st))
  ∧ (rooms st !! rid = None → rooms st' = rooms st)
  ∧ (∀ rid', is_Some (rooms st !! rid') → rooms st' !! rid' = None →
       rid' = rid ∧ ∃ r, rooms st !! rid = Some r ∧ room_users r = ∅).
Proof.
  intros Hi Hdue. simpl. unfold on_timer. rewrite Hi.
  destruct (Z.leb_spec due (now e)) as [_|?]; [|lia].
  rewrite cleanup_rooms. simpl.
  split; [|split; [|split]].
  - intros r Hr Hne. rewrite Hr. by case_decide.
  - intros r Hr Hempty. rewrite Hr. by case_decide.
  - by intros ->.
  - intros rid' [r' Hr'] Hgone.
    destruct (rooms st !! rid) as [r|] eqn:Hr; [|congruence].
    case_decide as Hempty; [|congruence].
    destruct (decide (rid' = rid)) as [->|Hne]; [eauto|].
    rewrite lookup_delete_ne in Hgone by done. congruence.
Qed.

Lemma cleanup_fires_witness :
  rooms (step (at_time 3601000) (TimerFire 0) (run rejoin_then_leave init)).1 !! "r"
  = None.
Proof.
  destruct (cleanup_fires (at_time 3601000) 0 (run rejoin_then_leave init)
              3601000 "r") as (_ & Hzero & _);
    [vm_compute; reflexivity | vm_compute; discriminate |].
  rewrite (Hzero (with_lastActivity 3000
                    (with_users (delete "b")
                       (with_lastActivity 2000
                          (with_users (insert "b" (joined_user (at_time 2000) "b" (Some "Bob")))
                             (with_lastActivity 1000
                                (with_users (delete "a")
                                   (with_lastActivity 0
                                      (with_users (insert "a"
                                         (joined_user (at_time 0) "a" (Some "Alice")))
                                         (fresh_room (at_time 0) "r"))))))))));
    [apply lookup_delete_eq | vm_compute; reflexivity | vm_compute; reflexivity].
Defined.

(** C4, counterexample. The room of that trace had a user after its cleanup was scheduled and
    before the timer fired, and the timer deleted it all the same, 3598
    seconds after it last became empty. *)
Lemma room_deleted_despite_rejoin :
  let scheduled := run (take 2 rejoin_then_leave) init in
  let rejoined := run (take 3 rejoin_then_leave) init in
  let fired := (step (at_time 3601000) (TimerFire 0) (run rejoin_then_leave init)).1 in
  timers scheduled = [(1000 + grace, "r")]
  ∧ (size ∘ room_users <$> rooms rejoined !! "r") = Some 1%nat
  ∧ timers rejoined !! 0%nat = Some (1000 + grace, "r")
  ∧ is_Some (rooms (run rejoin_then_leave init) !! "r")
  ∧ rooms fired !! "r" = None.
Proof. vm_compute. repeat split; eauto. Qed.

(** ** Leaving the previous room on a join (C5) *)

(** A join leaves the pending timers as they are: its leave of the previous
    room schedules nothing. *)
Lemma on_join_room_timers (e : env) (sid roomId : string) (userName : option string)
    (st : server) :
  timers (on_join_room e sid roomId userName st).1 = timers st.
Proof. rewrite on_join_room_state. simpl. apply leave_previous_timers. Qed.

(** C5, the code at the failing input. After the switch, room r1 is in the
    directory with zero users and no cleanup is pending for it; after the
    disconnect, the same room has its cleanup pending. *)
Theorem switch_schedules_no_cleanup :
  (size ∘ room_users <$> rooms (run alone_then_switch init) !! "r1") = Some 0%nat
  ∧ timers (run alone_then_switch init) = []
  ∧ (size ∘ room_users <$> rooms (run alone_then_disconnect init) !! "r1") = Some 0%nat
  ∧ timers (run alone_then_disconnect init) = [(1000 + grace, "r1")].
Proof. vm_compute. repeat split. Qed.

(** ** The room's last activity (C6) *)

(** A cursor-position leaves the last activity of every room as it was. *)
Lemma on_cursor_position_lastActivity (sid : string) (c : cursor) (st : server)
    (rid : string) :
  room_lastActivity <$> rooms (on_cursor_position sid c st).1 !! rid
  = room_lastActivity <$> rooms st !! rid.
Proof.
  unfold on_cursor_position.
  destruct (userSessions st !! sid) as [s|]; [|done].
  destruct (rooms st !! sess_roomId s) as [r|] eqn:Hr; [|done].
  simpl. destruct (decide (sess_roomId s = rid)) as [<-|Hne].
  - by rewrite lookup_insert_eq, Hr.
  - by rewrite lookup_insert_ne.
Qed.

(** The three other mutating requests stamp the room with the time of the
    request. *)
Lemma mutation_stamps_lastActivity (e : env) (sid : string) (ev : event)
    (st : server) (s : session) (r : room) :
  userSessions st !! sid = Some s → rooms st !! sess_roomId s = Some r →
  match ev with
  | DocumentOperationEv _ _ _ _ | LanguageChangeEv _ | ChatMessageEv _ =>
      room_lastActivity <$> rooms (step e (FromSocket sid ev) st).1 !! sess_roomId s
      = Some (now e)
  | _ => True
  end.
Proof.
  intros Hs Hr. destruct ev; try done; simpl;
    [unfold on_document_operation | unfold on_language_change | unfold on_chat_message];
    rewrite Hs, Hr; simpl; by rewrite lookup_insert_eq.
Qed.

(** C6, the code at the failing input. A cursor-position at time 5000 moves
    the user's cursor in room r1 and leaves the room's last activity at 0; a
    chat-message at the same time sets it to 5000. *)
Theorem cursor_keeps_lastActivity :
  let st := run alice_alone init in
  let moved :=
    (step (at_time 5000) (FromSocket "a" (CursorPositionEv (Cursor 3 4))) st).1 in
  let chatted := (step (at_time 5000) (FromSocket "a" (ChatMessageEv "hi")) st).1 in
  (room_lastActivity <$> rooms st !! "r1") = Some 0
  ∧ (rooms moved !! "r1" ≫= λ r, user_cursor <$> room_users r !! "a")
    = Some (Cursor 3 4)
  ∧ (room_lastActivity <$> rooms moved !! "r1") = Some 0
  ∧ (room_lastActivity <$> rooms chatted !! "r1") = Some 5000.
Proof. vm_compute. repeat split. Qed.

(** ** The colour of a user (C9) *)

Lemma color_after_join_eq e sid roomId userName st :
  color_after_join e sid roomId userName st
  = Some ("hsl(" +:+ pretty (rnd360 e) +:+ ", 70%, 60%)").
Proof.
  unfold color_after_join. simpl. rewrite on_join_room_state. simpl.
  by rewrite lookup_insert_eq.
Qed.

(** C9, as amended. The colour a join assigns is hsl(h, 70%, 60%) for the
    hue h drawn at random during that join; two runs of the join that draw
    the same hue assign the same colour, whatever the connection, the room,
    the name and the state. *)
Theorem color_follows_hue (e1 e2 : env) (sid1 sid2 roomId1 roomId2 : string)
    (userName1 userName2 : option string) (st1 st2 : server) :
  rnd360 e1 = rnd360 e2 →
  color_after_join e1 sid1 roomId1 userName1 st1
  = color_after_join e2 sid2 roomId2 userName2 st2
  ∧ color_after_join e1 sid1 roomId1 userName1 st1
    = Some ("hsl(" +:+ pretty (rnd360 e1) +:+ ", 70%, 60%)").
Proof. intros Hhue. rewrite !color_after_join_eq, Hhue. done. Qed.

Lemma color_follows_hue_witness :
  color_after_join (at_time 0) "a" "r1" None init = Some "hsl(200, 70%, 60%)".
Proof.
  destruct (color_follows_hue (at_time 0) (at_time 9) "a" "b" "r1" "r2" None None
              init init) as [_ ->]; [reflexivity | reflexivity].
Defined.

(** C9, counterexample. Two runs of the same join, by the same connection in the same state,
    that differ in the random draw alone, assign different colours. *)
Lemma color_differs_between_runs :
  color_after_join (Env 0 "uuid" 7 10 0) "a" "r1" (Some "Alice") init
  ≠ color_after_join (Env 0 "uuid" 7 20 0) "a" "r1" (Some "Alice") init.
Proof. vm_compute. discriminate. Qed.

(** * Further properties of the code *)

(** ** Edits as lists of units *)

Lemma units_apply_insert (op : DocumentOperation) (content : string) :
  op_type op = "insert" → 0 ≤ op_position op →
  JsString.units (applyOperation op content)
  = (take (Z.to_nat (op_position op)) (JsString.units content)
     ++ JsString.units (op_content op)
     ++ drop (Z.to_nat (op_position op)) (JsString.units content))%list.
Proof.
  intros Hty Hpos. unfold applyOperation. rewrite Hty. simpl.
  by rewrite !units_app, units_slice_upto, units_slice_from.
Qed.

Lemma units_apply_delete (op : DocumentOperation) (content : string) :
  op_type op = "delete" → 0 ≤ op_position op → 0 ≤ op_length op →
  JsString.units (applyOperation op content)
  = (take (Z.to_nat (op_position op)) (JsString.units content)
     ++ drop (Z.to_nat (op_position op) + Z.to_nat (op_length op))
          (JsString.units content))%list.
Proof.
  intros Hty Hpos Hlen. unfold applyOperation. rewrite Hty. simpl.
  rewrite !units_app, units_slice_upto, units_slice_from by lia.
  by rewrite Z2Nat.inj_add.
Qed.

(** The two slices of an insert cut the content in two at one place,
    whatever the sign of the position. *)
Lemma slices_partition (s : string) (p : Z) :
  ∃ k : nat,
    (k ≤ String.length s)%nat
    ∧ JsString.units (JsString.slice s 0 (Some p)) = take k (JsString.units s)
    ∧ JsString.units (JsString.slice s p None) = drop k (JsString.units s).
Proof.
  destruct (Z.le_gt_cases 0 p) as [Hp|Hp].
  - exists (Nat.min (Z.to_nat p) (String.length s)). split; [lia|].
    rewrite units_slice_upto, units_slice_from by done.
    pose proof (length_units s) as Hlen.
    destruct (Nat.le_gt_cases (Z.to_nat p) (String.length s)).
    + by rewrite Nat.min_l.
    + rewrite Nat.min_r by lia. rewrite !take_ge, !drop_ge by lia. done.
  - pose proof (length_units s) as Hlen.
    exists (Z.to_nat (Z.max (Z.of_nat (String.length s) + p) 0)). split; [lia|].
    unfold JsString.slice, JsString.resolve, JsString.length.
    destruct (Z.ltb_spec 0 0) as [?|_]; [lia|].
    destruct (Z.ltb_spec p 0) as [_|?]; [|lia].
    replace (Z.min 0 (Z.of_nat (String.length s))) with 0 by lia.
    set (k := Z.max (Z.of_nat (String.length s) + p) 0).
    split.
    + destruct (Z.leb_spec k 0) as [Hk|Hk].
      * replace (Z.to_nat k) with 0%nat by lia. done.
      * by rewrite units_substring, drop_0, Z.sub_0_r.
    + destruct (Z.leb_spec (Z.of_nat (String.length s)) k) as [Hk|Hk].
      * rewrite drop_ge; [done | lia].
      * rewrite units_substring. apply take_ge. rewrite length_drop. lia.
Qed.

(** X1. An insert keeps every unit of the content, in order, for every
    integer position, negative ones included: the result is the content cut
    at some place with the text put there, and it is longer than the content
    by the length of the text. *)
Theorem insert_keeps_content (op : DocumentOperation) (content : string) :
  op_type op = "insert" →
  (∃ k : nat,
     (k ≤ String.length content)%nat
     ∧ JsString.units (applyOperation op content)
       = (take k (JsString.units content) ++ JsString.units (op_content op)
          ++ drop k (JsString.units content))%list)
  ∧ String.length (applyOperation op content)
    = (String.length content + String.length (op_content op))%nat.
Proof.
  intros Hty.
  destruct (slices_partition content (op_position op)) as (k & Hk & Hbefore & Hafter).
  assert (JsString.units (applyOperation op content)
          = (take k (JsString.units content) ++ JsString.units (op_content op)
             ++ drop k (JsString.units content))%list) as Hunits.
  { unfold applyOperation. rewrite Hty. simpl.
    by rewrite !units_app, Hbefore, Hafter. }
  split; [eauto|].
  rewrite <- (length_units (applyOperation op content)), Hunits.
  rewrite !length_app, length_take, length_drop, !length_units. lia.
Qed.

Lemma insert_keeps_content_witness :
  String.length (applyOperation (MkOperation "insert" (-2) "XY" 0 "id" 0) "abc") = 5%nat.
Proof.
  destruct (insert_keeps_content (MkOperation "insert" (-2) "XY" 0 "id" 0) "abc")
    as [_ ->]; reflexivity.
Defined.

(** X2. Deleting, at the same position, as many units as an insert put
    there gives the content back, when the position is within the
    content. *)
Theorem insert_then_delete_restores (ins del : DocumentOperation) (content : string) :
  op_type ins = "insert" → op_type del = "delete" →
  0 ≤ op_position ins ≤ JsString.length content →
  op_position del = op_position ins →
  op_length del = JsString.length (op_content ins) →
  applyOperation del (applyOperation ins content) = content.
Proof.
  intros Hins Hdel [Hpos Hin] Hsame Hlen. unfold JsString.length in *.
  apply units_inj.
  rewrite units_apply_delete, units_apply_insert by (try done; lia).
  rewrite Hsame, Hlen.
  set (u := JsString.units content). set (t := JsString.units (op_content ins)).
  set (p := Z.to_nat (op_position ins)).
  assert (length (take p u) = p) as Hp.
  { rewrite length_take. unfold u. rewrite length_units. lia. }
  assert (Z.to_nat (Z.of_nat (String.length (op_content ins))) = length t) as ->.
  { unfold t. rewrite length_units. lia. }
  rewrite take_app_length' by done.
  rewrite (app_assoc (take p u) t), drop_app_length'
    by (rewrite length_app; lia).
  apply take_drop.
Qed.

Lemma insert_then_delete_restores_witness :
  applyOperation (MkOperation "delete" 2 EmptyString 3 "d" 1)
    (applyOperation (MkOperation "insert" 2 "XYZ" 0 "i" 0) "abcd") = "abcd".
Proof.
  apply insert_then_delete_restores;
    [reflexivity | reflexivity | vm_compute; split; discriminate
    | reflexivity | reflexivity].
Defined.

(** ** Transformed operations commute *)

Section Splices.

Context {A : Type}.
Implicit Types (u a b l : list A).

Lemma cut_take (n : nat) (pre suf : list A) :
  length pre = n → take n (pre ++ suf) = pre.
Proof. intros <-. apply take_app_length. Qed.

Lemma cut_drop (n m : nat) (pre suf : list A) :
  length pre = n → drop (n + m) (pre ++ suf) = drop m suf.
Proof. intros <-. by rewrite <- drop_drop, drop_app_length. Qed.

Lemma cut_drop0 (n : nat) (pre suf : list A) :
  length pre = n → drop n (pre ++ suf) = suf.
Proof. intros <-. apply drop_app_length. Qed.

Lemma split_in_three u (p q : nat) :
  (p ≤ q)%nat → (q ≤ length u)%nat →
  ∃ l1 l2 l3, u = (l1 ++ l2 ++ l3)%list ∧ length l1 = p ∧ length (l1 ++ l2) = q.
Proof.
  intros Hpq Hq. exists (take p u), (take (q - p) (drop p u)), (drop q u).
  split; [|split].
  - rewrite app_assoc, take_take_drop.
    replace (p + (q - p))%nat with q by lia. by rewrite take_drop.
  - rewrite length_take. lia.
  - rewrite take_take_drop, length_take. lia.
Qed.

(** A inserts [a] at [p], B inserts [b] at [q], [p ≤ q]. *)
Lemma insert_insert u a b (p q : nat) :
  (p ≤ q)%nat → (q ≤ length u)%nat →
  let X := (take p u ++ a ++ drop p u)%list in
  let Y := (take q u ++ b ++ drop q u)%list in
  (take (q + length a) X ++ b ++ drop (q + length a) X)%list
  = (take p Y ++ a ++ drop p Y)%list.
Proof.
  intros Hpq Hq.
  destruct (split_in_three u p q Hpq Hq) as (l1 & l2 & l3 & -> & H1 & H12).
  rewrite length_app in H12. simpl.
  rewrite (cut_take p l1), (cut_drop0 p l1) by done.
  rewrite (app_assoc l1 l2 l3).
  rewrite (cut_take q (l1 ++ l2)), (cut_drop0 q (l1 ++ l2))
    by (rewrite length_app; lia).
  replace (l1 ++ a ++ l2 ++ l3)%list with ((l1 ++ a ++ l2) ++ l3)%list
    by (by rewrite <- !app_assoc).
  rewrite (cut_take (q + length a)), (cut_drop0 (q + length a))
    by (rewrite !length_app; lia).
  rewrite <- (app_assoc l1 l2 (b ++ l3)).
  rewrite (cut_take p l1), (cut_drop0 p l1) by done.
  by rewrite <- !app_assoc.
Qed.

(** A inserts [a] at [p], B deletes [n] units at [q], [p ≤ q]. *)
Lemma insert_delete u a (p q n : nat) :
  (p ≤ q)%nat → (q ≤ length u)%nat →
  let X := (take p u ++ a ++ drop p u)%list in
  let Y := (take q u ++ drop (q + n) u)%list in
  (take (q + length a) X ++ drop (q + length a + n) X)%list
  = (take p Y ++ a ++ drop p Y)%list.
Proof.
  intros Hpq Hq.
  destruct (split_in_three u p q Hpq Hq) as (l1 & l2 & l3 & -> & H1 & H12).
  rewrite length_app in H12. simpl.
  rewrite (cut_take p l1), (cut_drop0 p l1) by done.
  rewrite (app_assoc l1 l2 l3).
  rewrite (cut_take q (l1 ++ l2)), (cut_drop q n (l1 ++ l2))
    by (rewrite length_app; lia).
  replace (l1 ++ a ++ l2 ++ l3)%list with ((l1 ++ a ++ l2) ++ l3)%list
    by (by rewrite <- !app_assoc).
  rewrite (cut_take (q + length a)), (cut_drop (q + length a) n)
    by (rewrite !length_app; lia).
  rewrite <- (app_assoc l1 l2 (drop n l3)).
  rewrite (cut_take p l1), (cut_drop0 p l1) by done.
  by rewrite <- !app_assoc.
Qed.

(** A deletes [m] units at [p], B inserts [b] at [q], [p + m ≤ q]. *)
Lemma delete_insert u b (p m q : nat) :
  (p + m ≤ q)%nat → (q ≤ length u)%nat →
  let X := (take p u ++ drop (p + m) u)%list in
  let Y := (take q u ++ b ++ drop q u)%list in
  (take (q - m) X ++ b ++ drop (q - m) X)%list
  = (take p Y ++ drop (p + m) Y)%list.
Proof.
  intros Hpq Hq.
  destruct (split_in_three u (p + m) q Hpq Hq) as (l12 & l3 & l4 & -> & H12 & H123).
  destruct (split_in_three l12 p p (le_n p) ltac:(lia))
    as (l1 & l2 & l0 & -> & H1 & H1').
  rewrite !length_app in *. assert (length l2 = 0%nat) as Hl2 by lia.
  destruct l2; [|discriminate Hl2]. clear Hl2 H1'. simpl in *.
  rename l0 into d.
  replace ((l1 ++ d) ++ l3 ++ l4)%list with (l1 ++ (d ++ l3 ++ l4))%list
    by (by rewrite <- !app_assoc).
  rewrite (cut_take p l1) by done.
  replace (l1 ++ d ++ l3 ++ l4)%list with ((l1 ++ d) ++ l3 ++ l4)%list
    by (by rewrite <- !app_assoc).
  rewrite (cut_drop0 (p + m) (l1 ++ d)) by (rewrite length_app; lia).
  replace ((l1 ++ d) ++ l3 ++ l4)%list with ((l1 ++ d ++ l3) ++ l4)%list
    by (by rewrite <- !app_assoc).
  rewrite (cut_take q), (cut_drop0 q) by (rewrite !length_app; lia).
  replace (l1 ++ l3 ++ l4)%list with ((l1 ++ l3) ++ l4)%list
    by (by rewrite <- !app_assoc).
  rewrite (cut_take (q - m)), (cut_drop0 (q - m)) by (rewrite !length_app; lia).
  replace ((l1 ++ d ++ l3) ++ b ++ l4)%list with (l1 ++ (d ++ l3 ++ b ++ l4))%list
    by (by rewrite <- !app_assoc).
  rewrite (cut_take p l1) by done.
  replace (l1 ++ d ++ l3 ++ b ++ l4)%list with ((l1 ++ d) ++ l3 ++ b ++ l4)%list
    by (by rewrite <- !app_assoc).
  rewrite (cut_drop0 (p + m) (l1 ++ d)) by (rewrite length_app; lia).
  by rewrite <- !app_assoc.
Qed.

(** A deletes [m] units at [p], B deletes [n] units at [q], [p + m ≤ q]. *)
Lemma delete_delete u (p m q n : nat) :
  (p + m ≤ q)%nat → (q ≤ length u)%nat →
  let X := (take p u ++ drop (p + m) u)%list in
  let Y := (take q u ++ drop (q + n) u)%list in
  (take (q - m) X ++ drop (q - m + n) X)%list
  = (take p Y ++ drop (p + m) Y)%list.
Proof.
  intros Hpq Hq.
  destruct (split_in_three u (p + m) q Hpq Hq) as (l12 & l3 & l4 & -> & H12 & H123).
  destruct (split_in_three l12 p p (le_n p) ltac:(lia))
    as (l1 & l2 & l0 & -> & H1 & H1').
  rewrite !length_app in *. assert (length l2 = 0%nat) as Hl2 by lia.
  destruct l2; [|discriminate Hl2]. clear Hl2 H1'. simpl in *.
  rename l0 into d.
  replace ((l1 ++ d) ++ l3 ++ l4)%list with (l1 ++ (d ++ l3 ++ l4))%list
    by (by rewrite <- !app_assoc).
  rewrite (cut_take p l1) by done.
  replace (l1 ++ d ++ l3 ++ l4)%list with ((l1 ++ d) ++ l3 ++ l4)%list
    by (by rewrite <- !app_assoc).
  rewrite (cut_drop0 (p + m) (l1 ++ d)) by (rewrite length_app; lia).
  replace ((l1 ++ d) ++ l3 ++ l4)%list with ((l1 ++ d ++ l3) ++ l4)%list
    by (by rewrite <- !app_assoc).
  rewrite (cut_take q), (cut_drop q n) by (rewrite !length_app; lia).
  replace (l1 ++ l3 ++ l4)%list with ((l1 ++ l3) ++ l4)%list
    by (by rewrite <- !app_assoc).
  rewrite (cut_take (q - m)), (cut_drop (q - m) n) by (rewrite !length_app; lia).
  replace ((l1 ++ d ++ l3) ++ drop n l4)%list with (l1 ++ (d ++ l3 ++ drop n l4))%list
    by (by rewrite <- !app_assoc).
  rewrite (cut_take p l1) by done.
  replace (l1 ++ d ++ l3 ++ drop n l4)%list with ((l1 ++ d) ++ l3 ++ drop n l4)%list
    by (by rewrite <- !app_assoc).
  rewrite (cut_drop0 (p + m) (l1 ++ d)) by (rewrite length_app; lia).
  by rewrite <- !app_assoc.
Qed.

End Splices.

(** X3. When A is an insert at or before B's position, or a delete whose
    window ends at or before B's position, and B's position is within the
    content, applying A and then B transformed against A gives the same
    content as applying B and then A. *)
Theorem transform_commutes (e : env) (A B : DocumentOperation) (content : string) :
  edit_type A → edit_type B → precedes A B →
  0 ≤ op_position A → 0 ≤ op_length A → 0 ≤ op_length B →
  op_position B ≤ JsString.length content →
  applyOperation (transformOperation e A B) (applyOperation A content)
  = applyOperation A (applyOperation B content).
Proof.
  intros HA HB Hprec HpA HlA HlB HpB. unfold JsString.length in HpB.
  pose proof (length_units content) as Hlen.
  pose proof (length_units (op_content A)) as HlenA.
  apply units_inj. unfold transformOperation, newDocumentOperation.
  destruct Hprec as [[HtA Hle]|[HtA Hle]]; rewrite HtA; simpl.
  - destruct (Z.leb_spec (op_position A) (op_position B)) as [_|?]; [|lia].
    destruct HB as [HtB|HtB].
    + rewrite (units_apply_insert (MkOperation _ _ _ _ _ _)) by (simpl; unfold JsString.length; (done || lia)).
      rewrite (units_apply_insert A), (units_apply_insert A), (units_apply_insert B)
        by (done || lia).
      simpl. unfold JsString.length.
      replace (Z.to_nat (op_position B + Z.of_nat (String.length (op_content A))))
        with (Z.to_nat (op_position B) + length (JsString.units (op_content A)))%nat
        by lia.
      apply insert_insert; lia.
    + rewrite (units_apply_delete (MkOperation _ _ _ _ _ _))
        by (simpl; unfold JsString.length; (done || lia)).
      rewrite (units_apply_insert A), (units_apply_insert A), (units_apply_delete B)
        by (done || lia).
      simpl. unfold JsString.length.
      replace (Z.to_nat (op_position B + Z.of_nat (String.length (op_content A))))
        with (Z.to_nat (op_position B) + length (JsString.units (op_content A)))%nat
        by lia.
      apply insert_delete; lia.
  - destruct (Z.leb_spec (op_position A) (op_position B)) as [_|?]; [|lia].
    replace (Z.max (op_position B - op_length A) (op_position A))
      with (op_position B - op_length A) by lia.
    destruct HB as [HtB|HtB].
    + rewrite (units_apply_insert (MkOperation _ _ _ _ _ _)) by (simpl; unfold JsString.length; (done || lia)).
      rewrite (units_apply_delete A), (units_apply_delete A), (units_apply_insert B)
        by (done || lia).
      simpl.
      replace (Z.to_nat (op_position B - op_length A))
        with (Z.to_nat (op_position B) - Z.to_nat (op_length A))%nat by lia.
      apply delete_insert; lia.
    + rewrite (units_apply_delete (MkOperation _ _ _ _ _ _))
        by (simpl; unfold JsString.length; (done || lia)).
      rewrite (units_apply_delete A), (units_apply_delete A), (units_apply_delete B)
        by (done || lia).
      simpl.
      replace (Z.to_nat (op_position B - op_length A))
        with (Z.to_nat (op_position B) - Z.to_nat (op_length A))%nat by lia.
      apply delete_delete; lia.
Qed.

Lemma transform_commutes_witness :
  applyOperation
    (transformOperation (at_time 5) (MkOperation "delete" 1 EmptyString 2 "a" 1)
       (MkOperation "insert" 4 "XY" 0 "b" 2))
    (applyOperation (MkOperation "delete" 1 EmptyString 2 "a" 1) "abcdef")
  = "adXYef".
Proof.
  rewrite (transform_commutes (at_time 5) (MkOperation "delete" 1 EmptyString 2 "a" 1)
             (MkOperation "insert" 4 "XY" 0 "b" 2) "abcdef");
    [reflexivity | by right | by left | right; split; [reflexivity | simpl; lia]
    | simpl; lia | simpl; lia | simpl; lia | vm_compute; discriminate].
Defined.

(** ** What every served state keeps *)

Lemma replay_snoc (ops : list DocumentOperation) (op : DocumentOperation) :
  replay (ops ++ [op]) = applyOperation op (replay ops).
Proof. unfold replay. by rewrite fold_left_app. Qed.

Lemma well_kept_init : well_kept init.
Proof. split; simpl; intros *; by rewrite lookup_empty. Qed.

(** Storing under [rid] a room that is in order, and keeping sessions in
    order, keeps the state in order. *)
Lemma well_kept_change (st st' : server) (rid : string) (r' : room) :
  well_kept st →
  rooms st' = <[rid := r']> (rooms st) →
  room_id r' = rid →
  (∀ sid u, room_users r' !! sid = Some u → user_id u = sid) →
  doc_content (room_document r') = replay (room_operations r') →
  (∀ sid s, userSessions st' !! sid = Some s → user_id (sess_user s) = sid) →
  well_kept st'.
Proof.
  intros [Hid Hu Hs Hre] Hrooms Hid' Hu' Hre' Hs'. split.
  - intros rid0 r. rewrite Hrooms. destruct (decide (rid = rid0)) as [<-|Hne].
    + rewrite lookup_insert_eq. by intros [= <-].
    + rewrite lookup_insert_ne by done. apply Hid.
  - intros rid0 r sid u. rewrite Hrooms. destruct (decide (rid = rid0)) as [<-|Hne].
    + rewrite lookup_insert_eq. intros [= <-]. apply Hu'.
    + rewrite lookup_insert_ne by done. apply Hu.
  - exact Hs'.
  - intros rid0 r. rewrite Hrooms. destruct (decide (rid = rid0)) as [<-|Hne].
    + rewrite lookup_insert_eq. by intros [= <-].
    + rewrite lookup_insert_ne by done. apply Hre.
Qed.

Lemma well_kept_same (st st' : server) :
  well_kept st → rooms st' = rooms st → userSessions st' = userSessions st →
  well_kept st'.
Proof.
  intros [Hid Hu Hs Hre] Hrooms Hsess. split; rewrite ?Hrooms, ?Hsess; done.
Qed.

Lemma well_kept_room_deleted (st st' : server) (rid : string) :
  well_kept st → rooms st' = delete rid (rooms st) →
  userSessions st' = userSessions st → well_kept st'.
Proof.
  intros [Hid Hu Hs Hre] Hrooms Hsess. split; rewrite ?Hrooms, ?Hsess; try done.
  - intros rid0 r Hr. apply lookup_delete_Some in Hr as [_ Hr]. eauto.
  - intros rid0 r sid u Hr. apply lookup_delete_Some in Hr as [_ Hr]. eauto.
  - intros rid0 r Hr. apply lookup_delete_Some in Hr as [_ Hr]. eauto.
Qed.

Lemma leave_previous_well_kept (sid : string) (st : server) :
  well_kept st → well_kept (leave_previous sid st).1.
Proof.
  intros Hk. pose proof Hk as [Hid Hu Hs Hre]. unfold leave_previous.
  destruct (userSessions st !! sid) as [s|]; [|done]. simpl.
  destruct (rooms st !! sess_roomId s) as [p|] eqn:Hp; simpl.
  - eapply (well_kept_change st _ (sess_roomId s)); [done | reflexivity | | | |done].
    + simpl. eauto.
    + simpl. intros sid' u Hl. apply lookup_delete_Some in Hl as [_ Hl]. eauto.
    + simpl. eauto.
  - by eapply well_kept_same.
Qed.

Lemma on_join_room_well_kept e sid roomId userName st :
  well_kept st → well_kept (on_join_room e sid roomId userName st).1.
Proof.
  intros Hk. apply (leave_previous_well_kept sid) in Hk.
  rewrite on_join_room_state. set (st1 := (leave_previous sid st).1) in *.
  pose proof Hk as [Hid Hu Hs Hre].
  eapply (well_kept_change st1 _ roomId); [done | reflexivity | | | |]; simpl.
  - destruct (rooms st1 !! roomId) as [r|] eqn:Hr; simpl; eauto.
  - intros sid' u. destruct (decide (sid = sid')) as [<-|Hne].
    + rewrite lookup_insert_eq. by intros [= <-].
    + rewrite lookup_insert_ne by done.
      destruct (rooms st1 !! roomId) as [r|] eqn:Hr; simpl; [eauto|].
      by rewrite lookup_empty.
  - destruct (rooms st1 !! roomId) as [r|] eqn:Hr; simpl; eauto.
  - intros sid' s. destruct (decide (sid = sid')) as [<-|Hne].
    + rewrite lookup_insert_eq. by intros [= <-].
    + rewrite lookup_insert_ne by done. apply Hs.
Qed.

Lemma on_document_operation_well_kept e sid type position content length st :
  well_kept st →
  well_kept (on_document_operation e sid type position content length st).1.
Proof.
  intros Hk. pose proof Hk as [Hid Hu Hs Hre]. unfold on_document_operation.
  destruct (userSessions st !! sid) as [s|]; [|done].
  destruct (rooms st !! sess_roomId s) as [r|] eqn:Hr; [|done]. simpl.
  eapply (well_kept_change st _ (sess_roomId s)); [done | reflexivity | | | |done];
    simpl; eauto.
  rewrite replay_snoc. f_equal. eauto.
Qed.

Lemma on_cursor_position_well_kept sid c st :
  well_kept st → well_kept (on_cursor_position sid c st).1.
Proof.
  intros Hk. pose proof Hk as [Hid Hu Hs Hre]. unfold on_cursor_position.
  destruct (userSessions st !! sid) as [s|] eqn:Hsid; [|done].
  destruct (rooms st !! sess_roomId s) as [r|] eqn:Hr; [|done]. simpl.
  eapply (well_kept_change st _ (sess_roomId s)); [done | reflexivity | | | |];
    simpl; eauto.
  - intros sid' u. destruct (decide (sid = sid')) as [<-|Hne].
    + rewrite lookup_insert_eq. intros [= <-]. simpl. eauto.
    + rewrite lookup_insert_ne by done. eauto.
  - intros sid' s'. destruct (decide (sid = sid')) as [<-|Hne].
    + rewrite lookup_insert_eq. intros [= <-]. simpl. eauto.
    + rewrite lookup_insert_ne by done. eauto.
Qed.

Lemma on_language_change_well_kept e sid language st :
  well_kept st → well_kept (on_language_change e sid language st).1.
Proof.
  intros Hk. pose proof Hk as [Hid Hu Hs Hre]. unfold on_language_change.
  destruct (userSessions st !! sid) as [s|]; [|done].
  destruct (rooms st !! sess_roomId s) as [r|] eqn:Hr; [|done]. simpl.
  eapply (well_kept_change st _ (sess_roomId s)); [done | reflexivity | | | |done];
    simpl; eauto.
Qed.

Lemma on_chat_message_well_kept e sid message st :
  well_kept st → well_kept (on_chat_message e sid message st).1.
Proof.
  intros Hk. pose proof Hk as [Hid Hu Hs Hre]. unfold on_chat_message.
  destruct (userSessions st !! sid) as [s|]; [|done].
  destruct (rooms st !! sess_roomId s) as [r|] eqn:Hr; [|done]. simpl.
  eapply (well_kept_change st _ (sess_roomId s)); [done | reflexivity | | | |done];
    simpl; eauto.
Qed.

Lemma on_disconnect_well_kept e sid st :
  well_kept st → well_kept (on_disconnect e sid st).1.
Proof.
  intros Hk. pose proof Hk as [Hid Hu Hs Hre].
  destruct (on_disconnect_state e sid st) as (_ & Hsess & Hrooms).
  assert (∀ sid' s, userSessions (on_disconnect e sid st).1 !! sid' = Some s →
                    user_id (sess_user s) = sid') as Hs'.
  { intros sid' s. rewrite Hsess. intros Hl.
    apply lookup_delete_Some in Hl as [_ Hl]. eauto. }
  destruct (userSessions st !! sid) as [s|].
  - destruct (rooms st !! sess_roomId s) as [r|] eqn:Hr.
    + eapply (well_kept_change st _ (sess_roomId s)); [done | exact Hrooms | | | |done];
        simpl; eauto.
      intros sid' u Hl. apply lookup_delete_Some in Hl as [_ Hl]. eauto.
    + split; rewrite ?Hrooms; done.
  - split; rewrite ?Hrooms; done.
Qed.

Lemma on_timer_well_kept e i st : well_kept st → well_kept (on_timer e i st).
Proof.
  intros Hk. unfold on_timer. destruct (timers st !! i) as [[due rid]|]; [|done].
  destruct (due <=? now e); [|done]. unfold cleanup. simpl.
  destruct (rooms st !! rid) as [r|]; [|by eapply well_kept_same].
  case_decide; [by eapply well_kept_room_deleted | by eapply well_kept_same].
Qed.

Lemma step_well_kept (e : env) (inp : input) (st : server) :
  well_kept st → well_kept (step e inp st).1.
Proof.
  intros Hk. destruct inp as [sid ev|i]; [destruct ev|]; simpl.
  - by eapply well_kept_same.
  - by apply on_join_room_well_kept.
  - by apply on_document_operation_well_kept.
  - by apply on_cursor_position_well_kept.
  - by apply on_language_change_well_kept.
  - by apply on_chat_message_well_kept.
  - by rewrite on_ai_assistance_state.
  - by apply on_disconnect_well_kept.
  - by apply on_timer_well_kept.
Qed.

Lemma postRoom_rooms (e : env) (name : option string) (st : server) :
  ∃ nm,
    rooms (postRoom e name st).1 = <[uuid e := (createRoom e (uuid e) nm init).2]> (rooms st)
    ∧ userSessions (postRoom e name st).1 = userSessions st
    ∧ sio (postRoom e name st).1 = sio st
    ∧ timers (postRoom e name st).1 = timers st
    ∧ (postRoom e name st).2 = (uuid e, nm)
    ∧ nm = match name with
           | Some n =>
               if String.eqb n EmptyString
               then "Room " +:+ JsString.slice (uuid e) 0 (Some 8) else n
           | None => "Room " +:+ JsString.slice (uuid e) 0 (Some 8)
           end.
Proof. unfold postRoom. eexists. simpl. repeat split. Qed.

Lemma serve_well_kept (e : env) (rq : request) (st : server) :
  well_kept st → well_kept (serve e rq st).
Proof.
  intros Hk. destruct rq as [inp|name|]; [by apply step_well_kept | | done].
  unfold serve. destruct (postRoom_rooms e name st) as (nm & Hrooms & Hsess & _).
  pose proof Hk as [Hid Hu Hs Hre].
  eapply (well_kept_change st _ (uuid e)); [done | exact Hrooms | | | |].
  - done.
  - simpl. intros sid u. by rewrite lookup_empty.
  - done.
  - by rewrite Hsess.
Qed.

Lemma served_well_kept (st : server) : served st → well_kept st.
Proof.
  intros [tr <-]. generalize well_kept_init. generalize init.
  induction tr as [|[e rq] tr IH]; intros st Hk; simpl; [done|].
  by apply IH, serve_well_kept.
Qed.

Lemma serve_all_loop (tr : list (env * input)) (st : server) :
  serve_all ((λ x, (x.1, Loop x.2)) <$> tr) st = run tr st.
Proof.
  revert st. induction tr as [|[e inp] tr IH]; intros st; simpl; [done|]. apply IH.
Qed.

Lemma reachable_served (st : server) : reachable st → served st.
Proof. intros [tr <-]. eexists. apply serve_all_loop. Qed.

Lemma served_serve_all (tr : list (env * request)) : served (serve_all tr init).
Proof. by exists tr. Qed.

(** X4. In every state the process can reach by socket messages, timers and
    HTTP requests, the content of every room is what applying its operation
    log, oldest first, to the welcome text gives. *)
Theorem content_is_replay_of_log (st : server) (rid : string) (r : room) :
  served st →
  rooms st !! rid = Some r →
  doc_content (room_document r) = replay (room_operations r).
Proof. intros Hs Hr. by eapply content_replays_log, Hr; apply served_well_kept. Qed.

Lemma content_is_replay_of_log_witness :
  ∃ r, rooms (run scenario_delete init) !! "r1" = Some r
       ∧ doc_content (room_document r) = replay (room_operations r).
Proof.
  destruct (rooms (run scenario_delete init) !! "r1") as [r|] eqn:Hr;
    [|vm_compute in Hr; discriminate Hr].
  exists r. split; [reflexivity|].
  apply (content_is_replay_of_log (run scenario_delete init) "r1" r);
    [apply reachable_served, reachable_run | exact Hr].
Defined.

(** ** The list of rooms *)

Lemma listRooms_ids (st : server) :
  well_kept st → sum_id <$> listRooms st = (map_to_list (rooms st)).*1.
Proof.
  intros [Hid _ _ _]. unfold listRooms. rewrite <- list_fmap_compose.
  apply list_fmap_ext. intros i [rid r] Hin. simpl.
  apply list_elem_of_lookup_2, elem_of_map_to_list in Hin. eauto.
Qed.

(** X5. [GET /api/rooms] answers with one summary per room of the
    directory: the ids of the summaries are pairwise different, there are as
    many summaries as rooms, and a summary is in the answer exactly when it
    is the summary of the room stored under its id. *)
Theorem listRooms_lists_directory (st : server) :
  served st →
  NoDup (sum_id <$> listRooms st)
  ∧ length (listRooms st) = size (rooms st)
  ∧ (∀ sm, sm ∈ listRooms st ↔ ∃ r, rooms st !! sum_id sm = Some r ∧ sm = summary r).
Proof.
  intros Hs. pose proof (served_well_kept st Hs) as Hk. split; [|split].
  - rewrite listRooms_ids by done. apply NoDup_fst_map_to_list.
  - unfold listRooms. by rewrite length_fmap, length_map_to_list.
  - intros sm. unfold listRooms. rewrite list_elem_of_fmap. split.
    + intros ([rid r] & -> & Hin). apply elem_of_map_to_list in Hin. simpl.
      exists r. split; [|done]. by rewrite (room_under_id st Hk rid r Hin).
    + intros (r & Hr & ->). exists (sum_id (summary r), r). split; [done|].
      by apply elem_of_map_to_list.
Qed.

Lemma listRooms_lists_directory_witness :
  length (listRooms (serve_all [(at_time 0, PostRooms (Some "Lobby"));
                                (at_time 1, Loop (FromSocket "a" (JoinRoom "r1" None)))]
                       init)) = 2%nat.
Proof.
  destruct (listRooms_lists_directory
              (serve_all [(at_time 0, PostRooms (Some "Lobby"));
                          (at_time 1, Loop (FromSocket "a" (JoinRoom "r1" None)))] init)
              (served_serve_all _)) as (_ & -> & _).
  vm_compute. reflexivity.
Defined.

Lemma users_dom_sessions (st : server) (rid : string) (r : room) :
  consistent st → rooms st !! rid = Some r →
  dom (room_users r)
  = dom (filter (λ kv, sess_roomId kv.2 = rid) (userSessions st)).
Proof.
  intros [Hsr Hus _] Hr. apply set_eq. intros sid. rewrite !elem_of_dom. split.
  - intros [u Hu]. destruct (Hus _ _ _ _ Hr Hu) as (s & Hs & Hrid).
    exists s. by apply map_lookup_filter_Some.
  - intros [s Hs]. apply map_lookup_filter_Some in Hs as [Hs Hrid]. simpl in Hrid.
    destruct (Hsr _ _ Hs) as (r0 & Hr0 & Hu). rewrite Hrid, Hr in Hr0.
    injection Hr0 as <-. eauto.
Qed.

(** X6. In every state reachable by socket messages and timers, the user
    count that [GET /api/rooms] reports for a room is the number of sessions
    that name that room. *)
Theorem userCount_counts_sessions (st : server) (sm : room_summary) :
  reachable st →
  sm ∈ listRooms st →
  sum_userCount sm = sessions_naming (sum_id sm) st.
Proof.
  intros Hreach Hin.
  pose proof (served_well_kept st (reachable_served st Hreach)) as Hk.
  pose proof (reachable_consistent st Hreach) as Hc.
  unfold listRooms in Hin. apply list_elem_of_fmap in Hin as ([rid r] & -> & Hin).
  apply elem_of_map_to_list in Hin. simpl.
  rewrite (room_under_id st Hk rid r Hin). unfold sessions_naming.
  by rewrite <- !size_dom, (users_dom_sessions st rid r Hc Hin).
Qed.

Lemma userCount_counts_sessions_witness :
  Forall (λ sm, sum_userCount sm = sessions_naming (sum_id sm) (run alice_and_bob init))
    (listRooms (run alice_and_bob init)).
Proof.
  apply Forall_forall. intros sm Hin.
  exact (userCount_counts_sessions (run alice_and_bob init) sm
           (reachable_run alice_and_bob) Hin).
Defined.

(** ** Logs only grow *)

Lemma on_join_room_room (e : env) (sid roomId : string) (userName : option string)
    (st : server) (rid : string) (r : room) :
  rooms st !! rid = Some r →
  ∃ f t, rooms (on_join_room e sid roomId userName st).1 !! rid
         = Some (with_lastActivity t (with_users f r)).
Proof.
  intros Hr. rewrite on_join_room_state. simpl.
  destruct (leave_previous_rooms sid rid st) as [f Hf]. rewrite Hr in Hf. simpl in Hf.
  destruct (decide (roomId = rid)) as [->|Hne].
  - rewrite lookup_insert_eq, Hf. simpl.
    by exists (insert sid (joined_user e sid userName) ∘ f), (now e).
  - rewrite lookup_insert_ne, Hf by done. exists f, (room_lastActivity r).
    by destruct r.
Qed.

(** X7. No socket message and no timer shortens or rewrites the chat log or
    the operation log of a room that is in the directory before and after:
    the old logs are prefixes of the new ones. *)
Theorem logs_only_grow (e : env) (inp : input) (st : server) (rid : string)
    (r r' : room) :
  rooms st !! rid = Some r →
  rooms (step e inp st).1 !! rid = Some r' →
  room_chat r `prefix_of` room_chat r'
  ∧ room_operations r `prefix_of` room_operations r'.
Proof.
  intros Hr. destruct inp as [sid ev|i]; [destruct ev|]; simpl.
  - rewrite Hr. by intros [= <-].
  - destruct (on_join_room_room e sid roomId userName st rid r Hr) as (f & t & ->).
    by intros [= <-].
  - unfold on_document_operation.
    destruct (userSessions st !! sid) as [s|]; [|simpl; rewrite Hr; by intros [= <-]].
    destruct (rooms st !! sess_roomId s) as [r0|] eqn:Hr0;
      [|simpl; rewrite Hr; by intros [= <-]].
    simpl. destruct (decide (sess_roomId s = rid)) as [Heq|Hne].
    + rewrite Heq in *. rewrite lookup_insert_eq. intros [= <-]. simpl.
      rewrite Hr in Hr0. injection Hr0 as <-. split; [done|]. by apply prefix_app_r.
    + rewrite lookup_insert_ne, Hr by done. by intros [= <-].
  - unfold on_cursor_position.
    destruct (userSessions st !! sid) as [s|]; [|simpl; rewrite Hr; by intros [= <-]].
    destruct (rooms st !! sess_roomId s) as [r0|] eqn:Hr0;
      [|simpl; rewrite Hr; by intros [= <-]].
    simpl. destruct (decide (sess_roomId s = rid)) as [Heq|Hne].
    + rewrite Heq in *. rewrite lookup_insert_eq. intros [= <-]. simpl.
      rewrite Hr in Hr0. by injection Hr0 as <-.
    + rewrite lookup_insert_ne, Hr by done. by intros [= <-].
  - unfold on_language_change.
    destruct (userSessions st !! sid) as [s|]; [|simpl; rewrite Hr; by intros [= <-]].
    destruct (rooms st !! sess_roomId s) as [r0|] eqn:Hr0;
      [|simpl; rewrite Hr; by intros [= <-]].
    simpl. destruct (decide (sess_roomId s = rid)) as [Heq|Hne].
    + rewrite Heq in *. rewrite lookup_insert_eq. intros [= <-]. simpl.
      rewrite Hr in Hr0. by injection Hr0 as <-.
    + rewrite lookup_insert_ne, Hr by done. by intros [= <-].
  - unfold on_chat_message.
    destruct (userSessions st !! sid) as [s|]; [|simpl; rewrite Hr; by intros [= <-]].
    destruct (rooms st !! sess_roomId s) as [r0|] eqn:Hr0;
      [|simpl; rewrite Hr; by intros [= <-]].
    simpl. destruct (decide (sess_roomId s = rid)) as [Heq|Hne].
    + rewrite Heq in *. rewrite lookup_insert_eq. intros [= <-]. simpl.
      rewrite Hr in Hr0. injection Hr0 as <-. split; [|done]. by apply prefix_app_r.
    + rewrite lookup_insert_ne, Hr by done. by intros [= <-].
  - rewrite on_ai_assistance_state, Hr. by intros [= <-].
  - destruct (on_disconnect_state e sid st) as (_ & _ & ->).
    destruct (userSessions st !! sid) as [s|]; [|simpl; rewrite Hr; by intros [= <-]].
    destruct (rooms st !! sess_roomId s) as [r0|] eqn:Hr0;
      [|simpl; rewrite Hr; by intros [= <-]].
    destruct (decide (sess_roomId s = rid)) as [Heq|Hne].
    + rewrite Heq in *. rewrite lookup_insert_eq. intros [= <-]. simpl.
      rewrite Hr in Hr0. by injection Hr0 as <-.
    + rewrite lookup_insert_ne, Hr by done. by intros [= <-].
  - unfold on_timer. destruct (timers st !! i) as [[due rid0]|];
      [|simpl; rewrite Hr; by intros [= <-]].
    destruct (due <=? now e); [|simpl; rewrite Hr; by intros [= <-]].
    rewrite cleanup_rooms. simpl.
    destruct (rooms st !! rid0) as [r0|]; [|simpl; rewrite Hr; by intros [= <-]].
    case_decide; [|simpl; rewrite Hr; by intros [= <-]].
    intros Hl. apply lookup_delete_Some in Hl as [_ Hl]. rewrite Hr in Hl.
    by injection Hl as <-.
Qed.

Lemma logs_only_grow_witness :
  ∃ r r',
    rooms (run scenario_insert init) !! "r1" = Some r
    ∧ rooms (run scenario_delete init) !! "r1" = Some r'
    ∧ room_operations r `prefix_of` room_operations r'.
Proof.
  destruct (rooms (run scenario_insert init) !! "r1") as [r|] eqn:Hr;
    [|vm_compute in Hr; discriminate Hr].
  destruct (rooms (run scenario_delete init) !! "r1") as [r'|] eqn:Hr';
    [|vm_compute in Hr'; discriminate Hr'].
  exists r, r'. split; [reflexivity|]. split; [reflexivity|].
  refine (proj2 (logs_only_grow (at_time 3)
            (FromSocket "b" (DocumentOperationEv "delete" 0 EmptyString (Some 1)))
            (run scenario_insert init) "r1" r r' Hr _)).
  unfold scenario_delete in Hr'. by rewrite run_app in Hr'.
Defined.

(** ** Membership *)

(** X8. In every state reachable by socket messages and timers, a
    connection is in the user map of at most one room, and the user record of
    its session is the record that room holds for it, so a cursor written
    through the session is the cursor the room shows. *)
Theorem one_room_per_connection (st : server) :
  reachable st →
  (∀ sid r1 r2 a b,
     rooms st !! r1 = Some a → rooms st !! r2 = Some b →
     is_Some (room_users a !! sid) → is_Some (room_users b !! sid) → r1 = r2)
  ∧ (∀ sid s, userSessions st !! sid = Some s →
       ∃ r, rooms st !! sess_roomId s = Some r
            ∧ room_users r !! sid = Some (sess_user s)).
Proof.
  intros Hreach. destruct (reachable_consistent st Hreach) as [Hsr Hus _]. split.
  - intros sid r1 r2 a b Ha Hb [ua Hua] [ub Hub].
    destruct (Hus _ _ _ _ Ha Hua) as (s1 & Hs1 & <-).
    destruct (Hus _ _ _ _ Hb Hub) as (s2 & Hs2 & <-). congruence.
  - exact Hsr.
Qed.

Lemma one_room_per_connection_witness :
  ∃ r, rooms (run alice_and_bob init) !! "r1" = Some r
       ∧ room_users r !! "a" = Some (joined_user (at_time 10) "a" (Some "Alice")).
Proof.
  destruct (one_room_per_connection (run alice_and_bob init)
              (reachable_run alice_and_bob)) as [_ Hs].
  apply (Hs "a" {| sess_roomId := "r1";
                   sess_user := joined_user (at_time 10) "a" (Some "Alice") |}).
  vm_compute. reflexivity.
Defined.

(** ** Creating rooms over HTTP *)

Lemma leave_previous_users (sid rid : string) (st : server) :
  ∃ f, (f = id ∨ f = delete sid)
       ∧ rooms (leave_previous sid st).1 !! rid = with_users f <$> rooms st !! rid.
Proof.
  unfold leave_previous. destruct (userSessions st !! sid) as [s|].
  - simpl. destruct (rooms st !! sess_roomId s) as [p|] eqn:Hp; simpl.
    + destruct (decide (sess_roomId s = rid)) as [<-|Hne].
      * exists (delete sid). split; [by right|]. by rewrite lookup_insert_eq, Hp.
      * exists id. split; [by left|]. rewrite lookup_insert_ne by done.
        destruct (rooms st !! rid) as [[]|]; reflexivity.
    + exists id. split; [by left|]. destruct (rooms st !! rid) as [[]|]; reflexivity.
  - exists id. split; [by left|]. simpl.
    destruct (rooms st !! rid) as [[]|]; reflexivity.
Qed.

(** X9. A room created by [POST /api/rooms] and then joined with the id the
    answer gave is not created again by the join: it keeps the name and the
    creation time of the request, its document is the welcome text, and its
    only user is the joiner. *)
Theorem create_then_join_keeps_room (e1 e2 : env) (name userName : option string)
    (sid : string) (st : server) :
  let created := postRoom e1 name st in
  let rid := created.2.1 in
  let joined := (step e2 (FromSocket sid (JoinRoom rid userName)) created.1).1 in
  ∃ r, rooms joined !! rid = Some r
       ∧ room_name r = created.2.2
       ∧ room_createdAt r = now e1
       ∧ room_document r = {| doc_content := welcome; doc_language := default_language |}
       ∧ dom (room_users r) = {[sid]}
       ∧ (∀ n, name = Some n → n ≠ EmptyString → room_name r = n).
Proof.
  destruct (postRoom_rooms e1 name st) as (nm & Hrooms & _ & _ & _ & Hans & Hnm).
  cbv zeta. rewrite Hans. cbn [fst snd].
  change (step e2 (FromSocket sid (JoinRoom (uuid e1) userName)) (postRoom e1 name st).1)
    with (on_join_room e2 sid (uuid e1) userName (postRoom e1 name st).1).
  rewrite on_join_room_state. cbn [rooms].
  destruct (leave_previous_users sid (uuid e1) (postRoom e1 name st).1) as (f & Hid & Hf).
  rewrite Hrooms, lookup_insert_eq in Hf. cbn [fmap option_fmap option_map] in Hf.
  rewrite lookup_insert_eq. eexists. split; [reflexivity|].
  rewrite Hf. cbn [default]. repeat split.
  - simpl. rewrite dom_insert_L.
    destruct Hid as [->| ->]; simpl; rewrite ?delete_empty, dom_empty_L;
      apply (right_id_L ∅ (∪)).
  - intros n -> Hn. simpl. rewrite Hnm.
    destruct (String.eqb_spec n EmptyString); [done|reflexivity].
Qed.

Lemma create_then_join_keeps_room_witness :
  ∃ r, rooms (step (at_time 9) (FromSocket "a" (JoinRoom "uuid" (Some "Alice")))
                (postRoom (at_time 1) (Some "Lobby") init).1).1 !! "uuid" = Some r
       ∧ room_name r = "Lobby".
Proof.
  destruct (create_then_join_keeps_room (at_time 1) (at_time 9) (Some "Lobby")
              (Some "Alice") "a" init) as (r & Hr & _ & _ & _ & _ & Hname).
  exists r. split; [exact Hr|]. by apply Hname.
Defined.

(** X10. [createRoom] does not look whether the id is taken: on an id that
    has a room with a member, the room is replaced by a new one with no
    users, the welcome text and empty logs, while the member's session still
    names it, so the session and the room no longer agree. Other rooms are
    left as they are. *)
Theorem createRoom_replaces_room (e : env) (roomId name sid : string)
    (st : server) (s : session) :
  consistent st →
  userSessions st !! sid = Some s →
  sess_roomId s = roomId →
  let st' := (createRoom e roomId name st).1 in
  (∃ r, rooms st' !! roomId = Some r
        ∧ room_users r = ∅
        ∧ doc_content (room_document r) = welcome
        ∧ room_operations r = [] ∧ room_chat r = [])
  ∧ userSessions st' !! sid = Some s
  ∧ (∀ rid, rid ≠ roomId → rooms st' !! rid = rooms st !! rid)
  ∧ ¬ consistent st'.
Proof.
  intros Hc Hs Hrid. simpl. split; [|split; [|split]].
  - rewrite lookup_insert_eq. eexists. by split.
  - done.
  - intros rid Hne. by rewrite lookup_insert_ne.
  - intros [Hsr _ _]. destruct (Hsr sid s Hs) as (r & Hr & Hu).
    simpl in Hr. rewrite Hrid, lookup_insert_eq in Hr. injection Hr as <-.
    simpl in Hu. by rewrite lookup_empty in Hu.
Qed.

Lemma createRoom_replaces_room_witness :
  ¬ consistent (createRoom (at_time 50) "r1" "again" (run alice_and_bob init)).1.
Proof.
  refine (proj2 (proj2 (proj2
    (createRoom_replaces_room (at_time 50) "r1" "again" "a" (run alice_and_bob init)
       {| sess_roomId := "r1";
          sess_user := joined_user (at_time 10) "a" (Some "Alice") |}
       (reachable_consistent _ (reachable_run alice_and_bob)) _ _))));
    [vm_compute; reflexivity | reflexivity].
Defined.

(** ** The snapshot sent to a joiner *)

(** X11. The room-joined message of a join goes to the joiner alone and
    carries a snapshot (never null) of the room joined: its user count is the
    number of users listed and at least one, the joiner is listed with the
    name and colour just given and the cursor at line 0, column 0, and the
    document is the room's document. *)
Theorem snapshot_lists_joiner (e : env) (sid roomId : string)
    (userName : option string) (st : server) :
  let res := step e (FromSocket sid (JoinRoom roomId userName)) st in
  ∃ info r,
    Emit {[sid]} (RoomJoined (Some info)) ∈ res.2
    ∧ rooms res.1 !! roomId = Some r
    ∧ info_userCount info = length (info_users info)
    ∧ (1 ≤ info_userCount info)%nat
    ∧ {| ui_id := sid; ui_name := display_name e userName;
         ui_color := display_color e; ui_cursor := {| line := 0; column := 0 |} |}
      ∈ info_users info
    ∧ info_document info = room_document r.
Proof.
  simpl.
  assert (∃ r, rooms (on_join_room e sid roomId userName st).1 !! roomId = Some r
               ∧ room_users r !! sid = Some (joined_user e sid userName)) as (r & Hr & Hu).
  { rewrite on_join_room_state. simpl. rewrite lookup_insert_eq.
    eexists. split; [reflexivity|]. simpl. by rewrite lookup_insert_eq. }
  assert ((on_join_room e sid roomId userName st).2
          = ((leave_previous sid st).2 ++
             [Emit {[sid]} (RoomJoined (getRoomInfo roomId
                              (on_join_room e sid roomId userName st).1));
              Emit (SocketIO.socket_to (sio (on_join_room e sid roomId userName st).1)
                      sid roomId)
                (UserJoined (joined_user e sid userName))])%list) as ->.
  { unfold on_join_room. destruct (leave_previous sid st) as [st1 out1]. simpl.
    by destruct (rooms st1 !! roomId). }
  unfold getRoomInfo. rewrite Hr. eexists _, r.
  split; [|split; [done|]].
  { apply elem_of_app. right. apply list_elem_of_here. }
  simpl. rewrite length_fmap, length_map_to_list. split; [done|]. split; [|split; [|done]].
  - destruct (decide (size (room_users r) = 0%nat)) as [Hz|]; [|lia].
    apply map_size_empty_iff in Hz. by rewrite Hz, lookup_empty in Hu.
  - apply list_elem_of_fmap. exists (sid, joined_user e sid userName).
    split; [reflexivity|]. by apply elem_of_map_to_list.
Qed.

(** ** Disconnecting *)

(** X12. When the only member of a room disconnects at time t, one cleanup
    is added, due at t + 3600000; fired at or after that time with nothing
    in between, it removes exactly that room from the directory; asked to
    fire before, it changes nothing. *)
Theorem last_member_leaves (e1 e2 : env) (sid : string) (st : server)
    (s : session) (r : room) :
  userSessions st !! sid = Some s →
  rooms st !! sess_roomId s = Some r →
  delete sid (room_users r) = ∅ →
  let left := (step e1 (FromSocket sid Disconnect) st).1 in
  let fired := (step e2 (TimerFire (length (timers st))) left).1 in
  timers left = (timers st ++ [(now e1 + grace, sess_roomId s)])%list
  ∧ (now e1 + grace ≤ now e2 →
       rooms fired = delete (sess_roomId s) (rooms st) ∧ timers fired = timers st)
  ∧ (now e2 < now e1 + grace → fired = left).
Proof.
  intros Hs Hr Hlast. simpl.
  pose proof (on_disconnect_schedules e1 sid st s r Hs Hr) as Htimers.
  rewrite Hlast, map_size_empty in Htimers. simpl in Htimers.
  destruct (on_disconnect_state e1 sid st) as (_ & _ & Hrooms).
  rewrite Hs, Hr in Hrooms.
  split; [done|]. unfold on_timer. rewrite Htimers.
  rewrite lookup_app_r, Nat.sub_diag by done. simpl.
  split.
  - intros Hdue. destruct (Z.leb_spec (now e1 + grace) (now e2)) as [_|?]; [|lia].
    split.
    + rewrite cleanup_rooms. simpl. rewrite Hrooms, lookup_insert_eq. simpl.
      rewrite Hlast. rewrite decide_True by done. apply delete_insert_eq.
    + unfold cleanup. simpl. rewrite Hrooms, lookup_insert_eq. simpl.
      rewrite Hlast, map_size_empty. simpl. rewrite Htimers.
      clear. induction (timers st) as [|x l IH]; simpl; [done|]. by rewrite IH.
  - intros Hearly. destruct (Z.leb_spec (now e1 + grace) (now e2)) as [?|_]; [lia|done].
Qed.

Lemma last_member_leaves_witness :
  rooms (step (at_time 3601000) (TimerFire (length (timers (run alice_alone init))))
           (step (at_time 1000) (FromSocket "a" Disconnect) (run alice_alone init)).1).1
  = delete "r1" (rooms (run alice_alone init)).
Proof.
  destruct (last_member_leaves (at_time 1000) (at_time 3601000) "a" (run alice_alone init)
              {| sess_roomId := "r1";
                 sess_user := joined_user (at_time 0) "a" (Some "Alice") |}
              (with_lastActivity 0
                 (with_users (insert "a" (joined_user (at_time 0) "a" (Some "Alice")))
                    (fresh_room (at_time 0) "r1"))))
    as (_ & Hfire & _);
    [vm_compute; reflexivity | vm_compute; reflexivity | vm_compute; reflexivity |].
  exact (proj1 (Hfire ltac:(vm_compute; discriminate))).
Defined.

(** X13. After the only member of a room disconnected, when the next event
    is a join to that room by any connection and the cleanup fires right
    after that join, with no event in between, the room is kept: it is still
    in the directory with the document, the chat log and the operation log
    it had, and the joiner in it. (A joiner that leaves again before the
    firing is another matter: the room is then deleted.) *)
Theorem rejoin_keeps_room (e1 e2 e3 : env) (sid sid' : string)
    (userName : option string) (st : server) (s : session) (r : room) :
  userSessions st !! sid = Some s →
  rooms st !! sess_roomId s = Some r →
  delete sid (room_users r) = ∅ →
  let left := (step e1 (FromSocket sid Disconnect) st).1 in
  let back := (step e2 (FromSocket sid' (JoinRoom (sess_roomId s) userName)) left).1 in
  let fired := (step e3 (TimerFire (length (timers st))) back).1 in
  timers back !! length (timers st) = Some (now e1 + grace, sess_roomId s)
  ∧ ∃ r', rooms fired !! sess_roomId s = Some r'
          ∧ room_document r' = room_document r
          ∧ room_chat r' = room_chat r
          ∧ room_operations r' = room_operations r
          ∧ is_Some (room_users r' !! sid').
Proof.
  intros Hs Hr Hlast. cbv zeta.
  change (step e1 (FromSocket sid Disconnect) st) with (on_disconnect e1 sid st).
  set (left := (on_disconnect e1 sid st).1).
  change (step e2 (FromSocket sid' (JoinRoom (sess_roomId s) userName)) left)
    with (on_join_room e2 sid' (sess_roomId s) userName left).
  set (back := (on_join_room e2 sid' (sess_roomId s) userName left).1).
  assert (timers back = (timers st ++ [(now e1 + grace, sess_roomId s)])%list) as Ht.
  { unfold back. rewrite on_join_room_timers. unfold left.
    rewrite (on_disconnect_schedules e1 sid st s r Hs Hr).
    by rewrite Hlast, map_size_empty. }
  assert (rooms left !! sess_roomId s
          = Some (with_lastActivity (now e1) (with_users (delete sid) r))) as Hleft.
  { unfold left. destruct (on_disconnect_state e1 sid st) as (_ & _ & ->).
    by rewrite Hs, Hr, lookup_insert_eq. }
  assert (∃ r', rooms back !! sess_roomId s = Some r'
                ∧ room_document r' = room_document r
                ∧ room_chat r' = room_chat r
                ∧ room_operations r' = room_operations r
                ∧ room_users r' !! sid' = Some (joined_user e2 sid' userName))
    as (r' & Hback & Hdoc & Hchat & Hops & Hu).
  { unfold back. rewrite on_join_room_state. cbn [rooms].
    rewrite lookup_insert_eq. eexists. split; [reflexivity|].
    destruct (leave_previous_rooms sid' (sess_roomId s) left) as [f ->].
    rewrite Hleft. simpl. by rewrite lookup_insert_eq. }
  split.
  - rewrite Ht, lookup_app_r, Nat.sub_diag by done. done.
  - exists r'. simpl. unfold on_timer.
    rewrite Ht, lookup_app_r, Nat.sub_diag by done. simpl.
    destruct (now e1 + grace <=? now e3); [|by eauto 10].
    unfold cleanup. simpl. rewrite Hback.
    case_decide as Hz; [|by eauto 10].
    apply map_size_empty_iff in Hz. by rewrite Hz, lookup_empty in Hu.
Qed.

Lemma rejoin_keeps_room_witness :
  ∃ r', rooms (step (at_time 3601000)
                 (TimerFire (length (timers (run alice_alone init))))
                 (step (at_time 2000) (FromSocket "b" (JoinRoom "r1" (Some "Bob")))
                    (step (at_time 1000) (FromSocket "a" Disconnect)
                       (run alice_alone init)).1).1).1 !! "r1" = Some r'
        ∧ doc_content (room_document r') = welcome.
Proof.
  destruct (rejoin_keeps_room (at_time 1000) (at_time 2000) (at_time 3601000) "a" "b"
              (Some "Bob") (run alice_alone init)
              {| sess_roomId := "r1";
                 sess_user := joined_user (at_time 0) "a" (Some "Alice") |}
              (with_lastActivity 0
                 (with_users (insert "a" (joined_user (at_time 0) "a" (Some "Alice")))
                    (fresh_room (at_time 0) "r1"))))
    as (_ & r' & Hr' & Hdoc & _);
    [vm_compute; reflexivity | vm_compute; reflexivity | vm_compute; reflexivity |].
  exists r'. split; [exact Hr' | by rewrite Hdoc].
Defined.

(** X14. Among the socket messages only a disconnect changes the pending
    cleanups, and it only adds one at the end: a join, an edit, a cursor
    move, a language change, a chat message or an assistance request neither
    schedules nor cancels a cleanup. *)
Theorem only_disconnect_schedules (e : env) (sid : string) (ev : event) (st : server) :
  (ev ≠ Disconnect → timers (step e (FromSocket sid ev) st).1 = timers st)
  ∧ (ev = Disconnect →
     timers (step e (FromSocket sid ev) st).1 = timers st
     ∨ ∃ rid, timers (step e (FromSocket sid ev) st).1
              = (timers st ++ [(now e + grace, rid)])%list).
Proof.
  split.
  - intros Hev. destruct ev; try done; simpl.
    + apply on_join_room_timers.
    + unfold on_document_operation. destruct (userSessions st !! sid) as [s|]; [|done].
      by destruct (rooms st !! sess_roomId s).
    + unfold on_cursor_position. destruct (userSessions st !! sid) as [s|]; [|done].
      by destruct (rooms st !! sess_roomId s).
    + unfold on_language_change. destruct (userSessions st !! sid) as [s|]; [|done].
      by destruct (rooms st !! sess_roomId s).
    + unfold on_chat_message. destruct (userSessions st !! sid) as [s|]; [|done].
      by destruct (rooms st !! sess_roomId s).
    + by rewrite on_ai_assistance_state.
  - intros ->. simpl. unfold on_disconnect. simpl.
    destruct (userSessions st !! sid) as [s|]; simpl; [|by left].
    destruct (rooms st !! sess_roomId s) as [r|]; simpl; [|by left].
    case_decide; simpl; [right; by eexists | by left].
Qed.

Lemma only_disconnect_schedules_witness :
  timers (step (at_time 2000) (FromSocket "b" (JoinRoom "r" (Some "Bob")))
            (run (take 2 rejoin_then_leave) init)).1
  = [(1000 + grace, "r")].
Proof.
  destruct (only_disconnect_schedules (at_time 2000) "b" (JoinRoom "r" (Some "Bob"))
              (run (take 2 rejoin_then_leave) init)) as [Hkeep _].
  rewrite Hkeep; [vm_compute; reflexivity | discriminate].
Defined.

(** X15. In every state reachable by socket messages and timers, a
    disconnect leaves the connection without a session and in no room's user
    map, and leaves the sessions of all other connections as they were. *)
Theorem disconnect_forgets_connection (e : env) (sid : string) (st : server) :
  reachable st →
  let st' := (step e (FromSocket sid Disconnect) st).1 in
  userSessions st' !! sid = None
  ∧ (∀ rid r, rooms st' !! rid = Some r → room_users r !! sid = None)
  ∧ (∀ sid', sid' ≠ sid → userSessions st' !! sid' = userSessions st !! sid').
Proof.
  intros Hreach. simpl.
  pose proof (on_disconnect_consistent e sid st (reachable_consistent st Hreach))
    as [_ Hus _].
  destruct (on_disconnect_state e sid st) as (_ & Hsess & _).
  split; [|split].
  - rewrite Hsess. apply lookup_delete_eq.
  - intros rid r Hr. destruct (room_users r !! sid) as [u|] eqn:Hu; [|done].
    destruct (Hus _ _ _ _ Hr Hu) as (s & Hs & _).
    by rewrite Hsess, lookup_delete_eq in Hs.
  - intros sid' Hne. rewrite Hsess. by apply lookup_delete_ne.
Qed.

Lemma disconnect_forgets_connection_witness :
  userSessions (step (at_time 40) (FromSocket "a" Disconnect)
                  (run alice_and_bob init)).1 !! "a" = None.
Proof.
  destruct (disconnect_forgets_connection (at_time 40) "a" (run alice_and_bob init)
              (reachable_run alice_and_bob)) as (Hgone & _).
  exact Hgone.
Defined.

(** X16. A document-operation whose type is neither insert nor delete is
    not rejected: the content of the room stays as it was, and yet the
    operation is appended to the room's log, the room's last activity is set
    and the operation is emitted with [socket.to] to the room, as an insert
    or a delete is. *)
Theorem unknown_type_is_logged (e : env) (sid type : string) (position : Z)
    (content : string) (length : option Z) (st : server) (s : session) (r : room) :
  type ≠ "insert" → type ≠ "delete" →
  userSessions st !! sid = Some s →
  rooms st !! sess_roomId s = Some r →
  let op := newDocumentOperation e type position content length in
  let res := step e (FromSocket sid (DocumentOperationEv type position content length)) st in
  ∃ r', rooms res.1 !! sess_roomId s = Some r'
        ∧ room_document r' = room_document r
        ∧ room_operations r' = (room_operations r ++ [op])%list
        ∧ room_lastActivity r' = now e
        ∧ res.2 = [Emit (SocketIO.socket_to (sio st) sid (sess_roomId s))
                     (DocumentOperationMsg op sid (user_name (sess_user s)))].
Proof.
  intros Hi Hd Hs Hr. simpl. unfold on_document_operation. rewrite Hs, Hr. simpl.
  rewrite lookup_insert_eq. eexists. split; [reflexivity|]. simpl.
  split; [|done]. unfold applyOperation. simpl.
  destruct (String.eqb_spec type "insert"); [done|].
  destruct (String.eqb_spec type "delete"); [done|].
  by destruct (room_document r).
Qed.

Lemma unknown_type_is_logged_witness :
  ∃ r', rooms (step (at_time 40)
                 (FromSocket "a" (DocumentOperationEv "replace" 0 "x" None))
                 (run alice_alone init)).1 !! "r1" = Some r'
        ∧ length (room_operations r') = 1%nat
        ∧ doc_content (room_document r') = welcome.
Proof.
  destruct (unknown_type_is_logged (at_time 40) "a" "replace" 0 "x" None
              (run alice_alone init)
              {| sess_roomId := "r1";
                 sess_user := joined_user (at_time 0) "a" (Some "Alice") |}
              (with_lastActivity 0
                 (with_users (insert "a" (joined_user (at_time 0) "a" (Some "Alice")))
                    (fresh_room (at_time 0) "r1"))))
    as (r' & Hr' & Hdoc & Hops & _);
    [discriminate | discriminate | vm_compute; reflexivity | vm_compute; reflexivity |].
  exists r'. split; [exact Hr'|]. rewrite Hops, Hdoc. split; reflexivity.
Defined.

(** * The client *)

(** X17. The age label of the user list and of the room selector: below one
    minute (a date in the future included) the first label; from one minute
    to below one hour the whole minutes, 1 to 59; from one hour to below one
    day the whole hours, 1 to 23; from one day on, the date as the host
    prints it. *)
Theorem format_age_ranges (fresh : string) (toLocaleDateString : Z → string)
    (now date : Z) :
  let d := now - date in
  let label := Client.format_age fresh toLocaleDateString now date in
  (d < 60000 → label = fresh)
  ∧ (60000 ≤ d < 3600000 →
     label = (pretty (d `div` 60000) +:+ "m ago") ∧ (1 ≤ d `div` 60000 ≤ 59))
  ∧ (3600000 ≤ d < 86400000 →
     label = (pretty (d `div` 3600000) +:+ "h ago") ∧ (1 ≤ d `div` 3600000 ≤ 23))
  ∧ (86400000 ≤ d → label = toLocaleDateString date).
Proof.
  cbv zeta. unfold Client.format_age. set (d := now - date).
  assert ((d `div` 60000) `div` 60 = d `div` 3600000) as Hh.
  { rewrite Z.div_div by lia. reflexivity. }
  rewrite Hh.
  split; [|split; [|split]].
  - intros Hd. destruct (Z.ltb_spec (d `div` 60000) 1) as [_|Hge]; [done|].
    exfalso. revert Hge. Z.div_mod_to_equations. lia.
  - intros Hd.
    assert (1 ≤ d `div` 60000 ≤ 59) as Hm by (Z.div_mod_to_equations; lia).
    destruct (Z.ltb_spec (d `div` 60000) 1) as [?|_]; [lia|].
    destruct (Z.ltb_spec (d `div` 60000) 60) as [_|?]; [done|lia].
  - intros Hd.
    assert (60 ≤ d `div` 60000) as Hm by (Z.div_mod_to_equations; lia).
    assert (1 ≤ d `div` 3600000 ≤ 23) as Hhr by (Z.div_mod_to_equations; lia).
    destruct (Z.ltb_spec (d `div` 60000) 1) as [?|_]; [lia|].
    destruct (Z.ltb_spec (d `div` 60000) 60) as [?|_]; [lia|].
    destruct (Z.ltb_spec (d `div` 3600000) 24) as [_|?]; [done|lia].
  - intros Hd.
    assert (60 ≤ d `div` 60000) as Hm by (Z.div_mod_to_equations; lia).
    assert (24 ≤ d `div` 3600000) as Hhr by (Z.div_mod_to_equations; lia).
    destruct (Z.ltb_spec (d `div` 60000) 1) as [?|_]; [lia|].
    destruct (Z.ltb_spec (d `div` 60000) 60) as [?|_]; [lia|].
    destruct (Z.ltb_spec (d `div` 3600000) 24) as [?|_]; [lia|done].
Qed.

Lemma format_age_ranges_witness :
  Client.formatJoinTime (λ _, "1/1/2026") 7259999 0 = "2h ago"
  ∧ Client.formatLastActivity (λ _, "1/1/2026") 0 5000 = "Active now".
Proof.
  unfold Client.formatJoinTime, Client.formatLastActivity. split.
  - destruct (format_age_ranges "Just joined" (λ _, "1/1/2026") 7259999 0)
      as (_ & _ & Hh & _).
    destruct Hh as [-> _]; [simpl; lia | vm_compute; reflexivity].
  - destruct (format_age_ranges "Active now" (λ _, "1/1/2026") 0 5000) as (Hf & _).
    apply Hf. simpl. lia.
Defined.

Lemma cursor_step_NoDup (prev : list Client.CursorPosition) (ev : Client.cursor_event) :
  NoDup (Client.cp_userId <$> prev) →
  NoDup (Client.cp_userId <$> Client.cursor_step prev ev).
Proof.
  intros Hnd. destruct ev as [p|u]; simpl.
  - unfold Client.onCursorPosition. rewrite fmap_app. apply NoDup_app.
    split; [|split].
    + eapply sublist_NoDup; [exact Hnd|]. apply fmap_sublist, sublist_filter.
    + intros x Hx Hin. apply list_elem_of_fmap in Hx as (c & -> & Hc).
      apply list_elem_of_filter in Hc as [Hne _].
      simpl in Hin. apply list_elem_of_singleton in Hin. done.
    + simpl. apply NoDup_singleton.
  - unfold Client.onUserLeft_cursors.
    eapply sublist_NoDup; [exact Hnd|]. apply fmap_sublist, sublist_filter.
Qed.

(** X18. The list of remote cursors the client keeps never holds two
    entries for one user, whatever cursor-position and user-left messages
    arrive; after a cursor-position message the entry of that user is the
    one just received, and after a user-left message that user has no
    entry. *)
Theorem cursors_one_per_user (evs : list Client.cursor_event) :
  NoDup (Client.cp_userId <$> fold_left Client.cursor_step evs [])
  ∧ (∀ prev p c,
       c ∈ Client.onCursorPosition p prev →
       Client.cp_userId c = Client.cp_userId p → c = p)
  ∧ (∀ prev p, p ∈ Client.onCursorPosition p prev)
  ∧ (∀ prev u c, c ∈ Client.onUserLeft_cursors u prev → Client.cp_userId c ≠ user_id u).
Proof.
  split; [|split; [|split]].
  - assert (∀ prev, NoDup (Client.cp_userId <$> prev) →
                    NoDup (Client.cp_userId <$> fold_left Client.cursor_step evs prev))
      as Hgen.
    { induction evs as [|ev evs IH]; intros prev Hnd; simpl; [done|].
      by apply IH, cursor_step_NoDup. }
    apply Hgen. simpl. by apply NoDup_nil.
  - intros prev p c Hin Hid. unfold Client.onCursorPosition in Hin.
    apply elem_of_app in Hin as [Hin|Hin].
    + apply list_elem_of_filter in Hin as [Hne _]. done.
    + by apply list_elem_of_singleton in Hin.
  - intros prev p. unfold Client.onCursorPosition. apply elem_of_app. right.
    apply list_elem_of_here.
  - intros prev u c Hin. unfold Client.onUserLeft_cursors in Hin.
    by apply list_elem_of_filter in Hin as [Hne _].
Qed.

(** X19. In the client's user list, a user-left message removes every entry
    with that user's id and no other entry; after a user-joined message for a
    user that was not listed, it gives back the list as it was. *)
Theorem user_left_undoes_user_joined (u : user) (prev : list user) :
  (∀ x, x ∈ Client.onUserLeft_users u prev ↔ x ∈ prev ∧ user_id x ≠ user_id u)
  ∧ (user_id u ∉ user_id <$> prev →
     Client.onUserLeft_users u (Client.onUserJoined u prev) = prev).
Proof.
  split.
  - intros x. unfold Client.onUserLeft_users. rewrite list_elem_of_filter. tauto.
  - intros Hnew. unfold Client.onUserLeft_users, Client.onUserJoined.
    rewrite filter_app. simpl. rewrite filter_cons_False, filter_nil, app_nil_r
      by (intros Hne; by apply Hne).
    induction prev as [|x prev IH]; [done|].
    rewrite fmap_cons in Hnew. apply not_elem_of_cons in Hnew as [Hx Hrest].
    rewrite filter_cons_True by (intros Heq; by apply Hx). f_equal. by apply IH.
Qed.

Lemma user_left_undoes_user_joined_witness :
  Client.onUserLeft_users (joined_user (at_time 30) "b" (Some "Bob"))
    (Client.onUserJoined (joined_user (at_time 30) "b" (Some "Bob"))
       [joined_user (at_time 10) "a" (Some "Alice")])
  = [joined_user (at_time 10) "a" (Some "Alice")].
Proof.
  apply (user_left_undoes_user_joined (joined_user (at_time 30) "b" (Some "Bob"))
           [joined_user (at_time 10) "a" (Some "Alice")]).
  simpl. intros Hin. apply list_elem_of_singleton in Hin. discriminate Hin.
Defined.

(** X20. For a content change of the editor that lies within the content:
    when it is a pure insertion (no unit replaced) or a pure deletion (empty
    text), the server, applying the operation the editor sends, gets the
    editor's new content; when it replaces a non-empty range by a non-empty
    text, the operation is sent as an insert and the server's content is
    longer than the editor's by the length of the replaced range. *)
Theorem server_follows_pure_changes (e : env) (ch : Client.change) (content : string) :
  (Client.ch_start ch + Client.ch_rangeLength ch ≤ String.length content)%nat →
  (Client.ch_rangeLength ch = 0%nat ∨ Client.ch_text ch = EmptyString →
     applyOperation (Client.operation_of_change e ch) content
     = Client.editor_after ch content)
  ∧ (Client.ch_rangeLength ch ≠ 0%nat → Client.ch_text ch ≠ EmptyString →
     String.length (applyOperation (Client.operation_of_change e ch) content)
     = (String.length (Client.editor_after ch content) + Client.ch_rangeLength ch)%nat).
Proof.
  intros Hin. pose proof (length_units content) as Hlen.
  unfold Client.operation_of_change, Client.editor_after.
  destruct (String.eqb_spec (Client.ch_text ch) EmptyString) as [Hempty|Htext].
  - split; [|done]. intros _. apply units_inj.
    rewrite units_apply_delete, units_of_units by (simpl; (done || lia)).
    simpl. rewrite Hempty, !Nat2Z.id. done.
  - split.
    + intros [Hzero|?]; [|done]. apply units_inj.
      rewrite units_apply_insert, units_of_units by (simpl; (done || lia)).
      simpl. by rewrite Hzero, Nat.add_0_r, !Nat2Z.id.
    + intros Hrange _.
      rewrite <- (length_units (applyOperation _ _)),
        <- (length_units (JsString.of_units _)).
      rewrite units_apply_insert, units_of_units by (simpl; (done || lia)).
      simpl. rewrite !Nat2Z.id, !length_app, !length_take, !length_drop. lia.
Qed.

Lemma server_follows_pure_changes_witness :
  applyOperation (Client.operation_of_change (at_time 1) (Client.Change 1 2 EmptyString))
    "abcd" = "ad".
Proof.
  destruct (server_follows_pure_changes (at_time 1) (Client.Change 1 2 EmptyString)
              "abcd") as [Hpure _]; [simpl; lia|].
  rewrite Hpure; [reflexivity | by right].
Defined.

(** * Who receives a broadcast (C2) *)

(** ** What every served state keeps of the socket.io rooms *)


(** After [socket.leave(prev)], [sid] is out of [prev] and the other
    memberships are as before. *)
Lemma members_leave_inv (t : gmap string (gset string)) (sid prev m x : string) :
  m ∈ SocketIO.members (SocketIO.leave sid prev t) x →
  m ∈ SocketIO.members t x ∧ (x = prev → m ≠ sid).
Proof.
  rewrite members_leave. case_decide as Heq; [subst x|].
  - intros Hin. apply elem_of_difference in Hin as [Hin Hne].
    split; [done|]. intros _. by apply not_elem_of_singleton in Hne.
  - intros Hin. split; [done|]. intros ->. done.
Qed.

Lemma members_leave_other (t : gmap string (gset string)) (sid prev m x : string) :
  m ≠ sid → m ∈ SocketIO.members t x →
  m ∈ SocketIO.members (SocketIO.leave sid prev t) x.
Proof.
  intros Hm Hin. rewrite members_leave. case_decide; [subst|]; [|done].
  apply elem_of_difference. split; [done | by apply not_elem_of_singleton].
Qed.

Lemma leave_previous_attached (sid : string) (st : server) :
  attached st → attached_but sid (leave_previous sid st).1.
Proof.
  intros [Hus Huj Hsj Hj]. unfold leave_previous.
  destruct (userSessions st !! sid) as [s|] eqn:Hs.
  - assert (∀ m x,
        m ∈ SocketIO.members (SocketIO.leave sid (sess_roomId s) (sio st)) x →
        m = x ∨ (m ≠ sid ∧ ∃ s', userSessions st !! m = Some s' ∧ sess_roomId s' = x))
      as Hj'.
    { intros m x Hin. apply members_leave_inv in Hin as [Hold Hleft].
      destruct (Hj _ _ Hold) as [->|(s' & Hs' & Hx)]; [by left|].
      destruct (decide (m = sid)) as [->|Hm]; [|right; eauto].
      exfalso. apply Hleft; [congruence | done]. }
    simpl. destruct (rooms st !! sess_roomId s) as [p|] eqn:Hp; simpl.
    + assert (∀ rid r m u,
          <[sess_roomId s := with_users (delete sid) p]> (rooms st) !! rid = Some r →
          room_users r !! m = Some u →
          m ≠ sid ∧ ∃ r0, rooms st !! rid = Some r0 ∧ room_users r0 !! m = Some u)
        as Hback.
      { intros rid r m u Hr Hu. destruct (decide (sess_roomId s = rid)) as [<-|Hne].
        - rewrite lookup_insert_eq in Hr. injection Hr as <-. simpl in Hu.
          apply lookup_delete_Some in Hu as [Hm Hu]. eauto.
        - rewrite lookup_insert_ne in Hr by done. split; [|eauto].
          intros ->. destruct (Hus _ _ _ _ Hr Hu) as (s' & Hs' & Hrid). congruence. }
      split; simpl.
      * intros rid r m u Hr Hu.
        destruct (Hback _ _ _ _ Hr Hu) as (Hm & r0 & Hr0 & Hu0). eauto.
      * intros rid r m u Hr Hu.
        destruct (Hback _ _ _ _ Hr Hu) as (Hm & r0 & Hr0 & Hu0).
        apply members_leave_other; eauto.
      * intros m s' Hm Hs'. apply members_leave_other; eauto.
      * exact Hj'.
    + split; simpl.
      * intros rid r m u Hr Hu. destruct (Hus _ _ _ _ Hr Hu) as (s' & Hs' & Hrid).
        split; [|eauto]. intros ->. congruence.
      * intros rid r m u Hr Hu. apply members_leave_other; [|eauto].
        intros ->. destruct (Hus _ _ _ _ Hr Hu) as (s' & Hs' & Hrid). congruence.
      * intros m s' Hm Hs'. apply members_leave_other; eauto.
      * exact Hj'.
  - simpl. split.
    + intros rid r m u Hr Hu. destruct (Hus _ _ _ _ Hr Hu) as (s' & Hs' & Hrid).
      split; [|eauto]. intros ->. congruence.
    + eauto.
    + eauto.
    + intros m x Hin. destruct (Hj _ _ Hin) as [->|(s' & Hs' & Hx)]; [by left|].
      right. split; [|eauto]. intros ->. congruence.
Qed.

Lemma on_join_room_attached (e : env) (sid roomId : string)
    (userName : option string) (st : server) :
  attached st → attached (on_join_room e sid roomId userName st).1.
Proof.
  intros Ha. rewrite on_join_room_state.
  destruct (leave_previous_attached sid st Ha) as [Hus Huj Hsj Hj].
  set (st1 := (leave_previous sid st).1) in *.
  split; simpl.
  - intros rid r m u Hr Hu. destruct (decide (roomId = rid)) as [<-|Hneq].
    + rewrite lookup_insert_eq in Hr. injection Hr as <-. simpl in Hu.
      destruct (decide (sid = m)) as [<-|Hne].
      * rewrite lookup_insert_eq. eauto.
      * rewrite lookup_insert_ne in Hu by done. rewrite lookup_insert_ne by done.
        destruct (rooms st1 !! roomId) as [r0|] eqn:Hr0; simpl in Hu.
        -- by destruct (Hus _ _ _ _ Hr0 Hu) as [_ ?].
        -- by rewrite lookup_empty in Hu.
    + rewrite lookup_insert_ne in Hr by done.
      destruct (Hus _ _ _ _ Hr Hu) as (Hne & s' & Hs' & Hrid).
      rewrite lookup_insert_ne by done. eauto.
  - intros rid r m u Hr Hu. rewrite members_join.
    destruct (decide (roomId = rid)) as [<-|Hneq].
    + rewrite lookup_insert_eq in Hr. injection Hr as <-. simpl in Hu.
      destruct (decide (sid = m)) as [<-|Hne];
        [by apply elem_of_union_l, elem_of_singleton|].
      rewrite lookup_insert_ne in Hu by done.
      destruct (rooms st1 !! roomId) as [r0|] eqn:Hr0; simpl in Hu.
      * apply elem_of_union_r. eauto.
      * by rewrite lookup_empty in Hu.
    + rewrite lookup_insert_ne in Hr by done. eauto.
  - intros m s Hs. destruct (decide (sid = m)) as [<-|Hne].
    + rewrite lookup_insert_eq in Hs. injection Hs as <-. simpl.
      rewrite members_join, decide_True by done.
      by apply elem_of_union_l, elem_of_singleton.
    + rewrite lookup_insert_ne in Hs by done. apply elem_of_members_join. eauto.
  - intros m x. rewrite members_join. intros Hin.
    assert ((m = sid ∧ x = roomId) ∨ m ∈ SocketIO.members (sio st1) x) as [[-> ->]|Hold].
    { case_decide as Heq; [subst x|by right].
      apply elem_of_union in Hin as [Hin|Hin]; [|by right].
      apply elem_of_singleton in Hin. by left. }
    + right. rewrite lookup_insert_eq. eauto.
    + destruct (Hj _ _ Hold) as [->|(Hm & s' & Hs' & Hx)]; [by left|].
      right. rewrite lookup_insert_ne by done. eauto.
Qed.









(** ** Receivers *)

Lemma socket_to_others (st : server) (rid sid : string) :
  (∀ rid r m u, rooms st !! rid = Some r → room_users r !! m = Some u →
     ∃ s, userSessions st !! m = Some s ∧ sess_roomId s = rid) →
  (∀ rid r m u, rooms st !! rid = Some r → room_users r !! m = Some u →
     m ∈ SocketIO.members (sio st) rid) →
  (∀ m x, m ∈ SocketIO.members (sio st) x →
     m = x ∨ ∃ s, userSessions st !! m = Some s ∧ sess_roomId s = x) →
  rid ≠ sid →
  others_reached st rid sid (SocketIO.socket_to (sio st) sid rid).
Proof.
  intros Hus Huj Hj Hrid r m Hr [u Hu] Hm. unfold SocketIO.socket_to.
  apply elem_of_difference. split; [eauto|]. intros Hin.
  destruct (Hj _ _ Hin) as [->|(s & Hs & Hx)]; [done|].
  destruct (Hus _ _ _ _ Hr Hu) as (s' & Hs' & Hrid'). congruence.
Qed.

Lemma attached_socket_to_others (st : server) (rid sid : string) :
  attached st → rid ≠ sid →
  others_reached st rid sid (SocketIO.socket_to (sio st) sid rid).
Proof. intros [Hus Huj _ Hj]. by apply socket_to_others. Qed.

Lemma attached_but_socket_to_others (st : server) (rid sid : string) :
  attached_but sid st → rid ≠ sid →
  others_reached st rid sid (SocketIO.socket_to (sio st) sid rid).
Proof.
  intros [Hus Huj _ Hj]. apply socket_to_others; [|done|].
  - intros rid0 r m u Hr Hu. by destruct (Hus _ _ _ _ Hr Hu) as [_ ?].
  - intros m x Hin. destruct (Hj _ _ Hin) as [->|[_ ?]]; [by left | by right].
Qed.






Lemma broadcast_user_joined e sid roomId userName st :
  attached st →
  let res := step e (FromSocket sid (JoinRoom roomId userName)) st in
  let R := SocketIO.socket_to (sio res.1) sid roomId in
  res.2 = ((leave_previous sid st).2 ++
           [Emit {[sid]} (RoomJoined (getRoomInfo roomId res.1));
            Emit R (UserJoined (joined_user e sid userName))])%list
  ∧ (roomId ≠ sid → others_reached res.1 roomId sid R)
  ∧ (in_own_room res.1 sid → sid ∉ R).
Proof.
  intros Ha. simpl. split; [|split].
  - unfold on_join_room. destruct (leave_previous sid st) as [st1 out1]. simpl.
    by destruct (rooms st1 !! roomId).
  - by apply attached_socket_to_others, on_join_room_attached.
  - apply socket_to_skips_own_room.
Qed.

Lemma broadcast_user_left_on_switch sid st s r :
  attached st → userSessions st !! sid = Some s → rooms st !! sess_roomId s = Some r →
  let res := leave_previous sid st in
  let R := SocketIO.socket_to (sio res.1) sid (sess_roomId s) in
  res.2 = [Emit R (UserLeft (sess_user s))]
  ∧ (sid ∉ R)
  ∧ (sess_roomId s ≠ sid → others_reached res.1 (sess_roomId s) sid R)
  ∧ rooms res.1 !! sess_roomId s = Some (with_users (delete sid) r).
Proof.
  intros Ha Hs Hr.
  pose proof (attached_but_socket_to_others _ (sess_roomId s) sid
                (leave_previous_attached sid st Ha)) as Hothers.
  revert Hothers. unfold leave_previous. rewrite Hs. simpl. rewrite Hr. simpl.
  intros Hothers. split; [done|]. split; [|split; [done|by rewrite lookup_insert_eq]].
  apply socket_to_skips_absent. rewrite members_leave, decide_True by done.
  rewrite elem_of_difference, elem_of_singleton. tauto.
Qed.





(** ** Leaving the previous room on a join *)

(** What the leave inside a join does for a connection with a session: the
    user is taken out of the previous room's user map, the user-left is
    emitted first, not to the leaver, and to the remaining members when the
    room is not named by the leaver's id; no cleanup is scheduled. *)
Lemma join_leaves_previous_room (e : env) (sid roomId : string)
    (userName : option string) (st : server) (s : session) (r : room) :
  attached st → userSessions st !! sid = Some s → rooms st !! sess_roomId s = Some r →
  sess_roomId s ≠ roomId →
  let res := step e (FromSocket sid (JoinRoom roomId userName)) st in
  rooms res.1 !! sess_roomId s = Some (with_users (delete sid) r)
  ∧ (∃ R, head res.2 = Some (Emit R (UserLeft (sess_user s)))
          ∧ (sid ∉ R)
          ∧ (sess_roomId s ≠ sid → others_reached res.1 (sess_roomId s) sid R))
  ∧ timers res.1 = timers st.
Proof.
  intros Ha Hs Hr Hne.
  destruct (broadcast_user_left_on_switch sid st s r Ha Hs Hr)
    as (Hout & Hecho & Hothers & Hroom).
  destruct (broadcast_user_joined e sid roomId userName st Ha) as [Hjoin _].
  simpl in *. split; [|split].
  - rewrite on_join_room_state. simpl. by rewrite lookup_insert_ne.
  - eexists. rewrite Hjoin, Hout. split; [reflexivity|]. split; [done|].
    intros Hown r' m Hr' Hm Hmne. eapply (Hothers Hown); [|exact Hm|exact Hmne].
    rewrite on_join_room_state in Hr'. simpl in Hr'.
    by rewrite lookup_insert_ne in Hr'.
  - apply on_join_room_timers.
Qed.

(** ** Negative offsets (C1) *)

(** C1, counterexample. A delete at position -1 of length 2 on abc: the
    window clamped to [0, 3] is [0, 1) and removing it gives bc; the
    handler's two slices give ab and bc, hence abbc, longer than the
    content. *)
Lemma negative_delete_not_clamped :
  applyOperation (MkOperation "delete" (-1) EmptyString 2 "id" 0) "abc" = "abbc"
  ∧ clamped_delete "abc" (-1) 2 = "bc"
  ∧ applyOperation (MkOperation "delete" (-1) EmptyString 2 "id" 0) "abc"
    ≠ clamped_delete "abc" (-1) 2.
Proof. vm_compute. repeat split. discriminate. Qed.

(** On non-negative positions and lengths the clamped delete is the edit of
    the handler. *)
Lemma clamped_delete_nonneg (op : DocumentOperation) (content : string) :
  op_type op = "delete" → 0 ≤ op_position op → 0 ≤ op_length op →
  applyOperation op content = clamped_delete content (op_position op) (op_length op).
Proof.
  intros Hty Hpos Hlen. rewrite applyOperation_delete by done.
  unfold Spec.delete, Spec.clamp, clamped_delete. f_equal. f_equal; f_equal; lia.
Qed.
